(** * odin-data control client: configuration trees and command sequencing

    A shallow embedding of [tools/python/odin_data/odin_data_client.py]
    (class [OdinDataClient]) together with the properties of its
    configuration-tree builder, message id generator and command
    orchestration.

    Python objects are modelled as follows.
    - A value produced by [json.load] is a [json] term.  A [dict] is an
      association list in insertion order: reading takes the first entry
      with the key, writing replaces that entry in place or appends a new
      one, as a Python dict does.
    - Attributes of [self] are the fields of the record [client].
    - Everything the client does to the outside (sending on a channel,
      logging, printing, sleeping) is appended to a trace of [event]s; what
      the outside answers (the result of [channel.poll] followed by
      [channel.recv]) is read from an inbox of pending poll outcomes.
    - A method is a function [world -> result A * world]: it either returns
      or raises, and in both cases the mutations made so far stay.
    - Strings are sequences of one-byte characters; a 200 ms sleep is
      [Sleep 200]. *)

From Stdlib Require Import ZArith List String Ascii Bool Lia.
From Stdlib Require Import DecimalString Floats.
Import ListNotations.
Open Scope string_scope.
Open Scope list_scope.
Open Scope Z_scope.
Set Warnings "-register-all".

(** ** JSON values as Python objects *)

Inductive json : Type :=
| JNull
| JBool (b : bool)
| JInt (z : Z)
| JFloat (f : float)
| JStr (s : string)
| JList (l : list json)
| JObj (d : list (string * json)).

Definition dict : Type := list (string * json).

(** [d.get(k)]: the value stored under [k], if any. *)
Fixpoint dict_get (k : string) (d : dict) : option json :=
  match d with
  | [] => None
  | (k', v) :: d' => if String.eqb k k' then Some v else dict_get k d'
  end.

(** [d[k] = v]: overwrite in place, or append a new entry. *)
Fixpoint dict_set (k : string) (v : json) (d : dict) : dict :=
  match d with
  | [] => [(k, v)]
  | (k', v') :: d' =>
      if String.eqb k k' then (k', v) :: d' else (k', v') :: dict_set k v d'
  end.

(** Exceptions the modelled code can raise. *)
Inductive key : Type :=
| KStr (s : string)
| KInt (z : Z).

Inductive exn : Type :=
| KeyError (k : key)
| TypeError
| IpcMessageException (msg : string)
| UnicodeDecodeError (msg : string)
| RecursionError (msg : string)
| ValueError (msg : string).

Inductive result (A : Type) : Type :=
| Ok (a : A)
| Raise (e : exn).
Arguments Ok {A} a.
Arguments Raise {A} e.

(** [needle in hay] for two Python strings: substring test. *)
Fixpoint is_substring (needle hay : string) : bool :=
  if String.prefix needle hay then true
  else match hay with
       | EmptyString => false
       | String _ hay' => is_substring needle hay'
       end.

Definition is_str (s : string) (x : json) : bool :=
  match x with
  | JStr t => String.eqb s t
  | _ => false
  end.

(** [section in config]. *)
Definition py_in (section : string) (config : json) : result bool :=
  match config with
  | JObj d => Ok (match dict_get section d with Some _ => true | None => false end)
  | JList l => Ok (existsb (is_str section) l)
  | JStr t => Ok (is_substring section t)
  | JNull | JBool _ | JInt _ | JFloat _ => Raise TypeError
  end.

(** [config[k]] with a string subscript: only a dict accepts it. *)
Definition getitem (config : json) (k : string) : result json :=
  match config with
  | JObj d =>
      match dict_get k d with
      | Some v => Ok v
      | None => Raise (KeyError (KStr k))
      end
  | _ => Raise TypeError
  end.

(** [config[k] = v] with a string subscript. *)
Definition setitem (config : json) (k : string) (v : json) : result json :=
  match config with
  | JObj d => Ok (JObj (dict_set k v d))
  | _ => Raise TypeError
  end.

(** Truth value of an object, as tested by [if params:]. *)
Definition truthy (x : json) : bool :=
  match x with
  | JNull => false
  | JBool b => b
  | JInt z => negb (Z.eqb z 0)
  | JFloat f => negb (PrimFloat.eqb f 0%float)
  | JStr s => negb (String.eqb s "")
  | JList l => match l with [] => false | _ => true end
  | JObj d => match d with [] => false | _ => true end
  end.

(** [len(x)].  A [str] is a sequence of one-byte characters here, so its
    length is Python's on ASCII text. *)
Definition py_len (x : json) : result Z :=
  match x with
  | JList l => Ok (Z.of_nat (List.length l))
  | JObj d => Ok (Z.of_nat (List.length d))
  | JStr s => Ok (Z.of_nat (String.length s))
  | _ => Raise TypeError
  end.

Fixpoint chars (s : string) : list json :=
  match s with
  | EmptyString => []
  | String c s' => JStr (String c EmptyString) :: chars s'
  end.

(** The items [for plugin in x] runs over; a [str] is run over one
    one-byte character at a time. *)
Definition py_iter (x : json) : result (list json) :=
  match x with
  | JList l => Ok l
  | JObj d => Ok (map (fun kv => JStr (fst kv)) d)
  | JStr s => Ok (chars s)
  | _ => Raise TypeError
  end.

(** ["{:d}".format(n)]. *)
Definition format_d (n : Z) : string := NilZero.string_of_int (Z.to_int n).

(** The object reached from [root] by [root[k1][k2]...]. *)
Fixpoint getpath (root : json) (path : list string) : result json :=
  match path with
  | [] => Ok root
  | k :: ks =>
      match getitem root k with
      | Ok child => getpath child ks
      | Raise e => Raise e
      end
  end.

(** In-place mutation [f] of the object [root[k1][k2]...]: the tree as it is
    seen from [root] afterwards.  Evaluating the subscripts may raise, and so
    may [f]; nothing is mutated then. *)
Fixpoint mutate_at (path : list string) (f : json -> result json) (root : json)
  : result json :=
  match path with
  | [] => f root
  | k :: ks =>
      match getitem root k with
      | Ok child =>
          match mutate_at ks f child with
          | Ok child' => setitem root k child'
          | Raise e => Raise e
          end
      | Raise e => Raise e
      end
  end.

(** [root[k1][k2]...[k] = v]. *)
Definition write_at (path : list string) (k : string) (v : json) (root : json)
  : result json :=
  mutate_at path (fun c => setitem c k v) root.

(** The leaf or section at a path, when every step is a dict holding the
    next key. *)
Definition lookup (root : json) (path : list string) : option json :=
  match getpath root path with
  | Ok v => Some v
  | Raise _ => None
  end.

(** [p] is an initial segment of [q]. *)
Fixpoint is_prefix (p q : list string) : bool :=
  match p, q with
  | [], _ => true
  | _ :: _, [] => false
  | a :: p', b :: q' => String.eqb a b && is_prefix p' q'
  end.

(** Neither path lies on the other: they part at some key. *)
Definition apart (p q : list string) : bool :=
  negb (is_prefix p q) && negb (is_prefix q p).

(** A tree is a nested mapping along [path]: the root is a dict and so is
    every section of the path that is present. *)
Fixpoint sections_ok (path : list string) (root : json) : bool :=
  match root with
  | JObj d =>
      match path with
      | [] => true
      | k :: ks =>
          match dict_get k d with
          | Some child => sections_ok ks child
          | None => true
          end
      end
  | _ => false
  end.

(** ** Messages, channels and the outside world *)

Record IpcMessage : Type := mkIpcMessage {
  msg_type : string;
  msg_val : string;
  id : Z;
  params : option json
}.

Inductive channel : Type := fr_ctrl_channel | fp_ctrl_channel.

Inductive level : Type := DEBUG | INFO | ERROR.

Inductive event : Type :=
| Log (lvl : level) (text : string)
| Send (ch : channel) (m : IpcMessage)
| Print (v : json)
| Sleep (ms : Z).

(** What [json.load(config_file)] makes of a document: the parsed value;
    a [JSONDecodeError] with its message when the text is not JSON; or
    another exception [e], one that is not a [JSONDecodeError], raised while
    the text is read and decoded: [UnicodeDecodeError] for bytes that are
    not text in the file's encoding, [RecursionError] for nesting deeper
    than the interpreter allows, [ValueError] for an integer literal longer
    than the interpreter converts. *)
Inductive document : Type :=
| Parsed (name : string) (config_params : json)
| Malformed (name : string) (err : string)
| Unreadable (name : string) (e : exn).

Definition doc_name (f : document) : string :=
  match f with
  | Parsed n _ => n
  | Malformed n _ => n
  | Unreadable n _ => n
  end.

Definition MESSAGE_ID_MAX : Z := 2 ^ 32.

Record client : Type := mkClient {
  fr_config : json;
  fp_config : json;
  fp_plugins : json;
  frames : Z;
  file_path : string;
  file_name : string;
  _msg_id : Z
}.

Record world : Type := mkWorld {
  self : client;
  trace : list event;
  inbox : list (option IpcMessage)
}.

(** [OdinDataClient.__init__]: empty trees, default session values. *)
Definition init_client : client :=
  {| fr_config := JObj [];
     fp_config := JObj [];
     fp_plugins := JList [];
     frames := 1;
     file_path := "/tmp";
     file_name := "test.hdf5";
     _msg_id := 0 |}.

Definition init (replies : list (option IpcMessage)) : world :=
  {| self := init_client; trace := []; inbox := replies |}.

(** ** Methods: state and exceptions *)

Definition M (A : Type) : Type := world -> result A * world.

Definition ret {A : Type} (a : A) : M A := fun w => (Ok a, w).

Definition bind {A B : Type} (m : M A) (k : A -> M B) : M B :=
  fun w =>
    match m w with
    | (Ok a, w') => k a w'
    | (Raise e, w') => (Raise e, w')
    end.

Definition lift {A : Type} (r : result A) : M A := fun w => (r, w).

Definition gets {A : Type} (f : client -> A) : M A :=
  fun w => (Ok (f (self w)), w).

Definition modify (f : client -> client) : M unit :=
  fun w => (Ok tt, {| self := f (self w); trace := trace w; inbox := inbox w |}).

Definition emit (e : event) : M unit :=
  fun w => (Ok tt, {| self := self w; trace := trace w ++ [e]; inbox := inbox w |}).

Declare Scope py_scope.
Delimit Scope py_scope with py.
Notation "x <- c ;; k" := (bind c (fun x => k))
  (at level 100, c at next level, right associativity) : py_scope.
Notation "c ;; k" := (bind c (fun _ => k))
  (at level 100, right associativity) : py_scope.
Open Scope py_scope.

(** [for _ in range(n): body]. *)
Fixpoint for_range (n : nat) (body : M unit) : M unit :=
  match n with
  | O => ret tt
  | S n' => body ;; for_range n' body
  end.

(** [for x in items: body(x)]. *)
Fixpoint for_each {A : Type} (items : list A) (body : A -> M unit) : M unit :=
  match items with
  | [] => ret tt
  | x :: rest => body x ;; for_each rest body
  end.

Definition when (b : bool) (body : M unit) : M unit :=
  if b then body else ret tt.

(** Attribute assignments on [self]. *)
Definition set_fr_config (v : json) (c : client) : client :=
  {| fr_config := v; fp_config := fp_config c; fp_plugins := fp_plugins c;
     frames := frames c; file_path := file_path c; file_name := file_name c;
     _msg_id := _msg_id c |}.

Definition set_fp_config (v : json) (c : client) : client :=
  {| fr_config := fr_config c; fp_config := v; fp_plugins := fp_plugins c;
     frames := frames c; file_path := file_path c; file_name := file_name c;
     _msg_id := _msg_id c |}.

Definition set_fp_plugins (v : json) (c : client) : client :=
  {| fr_config := fr_config c; fp_config := fp_config c; fp_plugins := v;
     frames := frames c; file_path := file_path c; file_name := file_name c;
     _msg_id := _msg_id c |}.

Definition set_frames (v : Z) (c : client) : client :=
  {| fr_config := fr_config c; fp_config := fp_config c;
     fp_plugins := fp_plugins c;
     frames := v; file_path := file_path c; file_name := file_name c;
     _msg_id := _msg_id c |}.

Definition set_file_path_attr (v : string) (c : client) : client :=
  {| fr_config := fr_config c; fp_config := fp_config c;
     fp_plugins := fp_plugins c;
     frames := frames c; file_path := v; file_name := file_name c;
     _msg_id := _msg_id c |}.

Definition set_file_name_attr (v : string) (c : client) : client :=
  {| fr_config := fr_config c; fp_config := fp_config c;
     fp_plugins := fp_plugins c;
     frames := frames c; file_path := file_path c; file_name := v;
     _msg_id := _msg_id c |}.

Definition set_msg_id (v : Z) (c : client) : client :=
  {| fr_config := fr_config c; fp_config := fp_config c;
     fp_plugins := fp_plugins c;
     frames := frames c; file_path := file_path c; file_name := file_name c;
     _msg_id := v |}.

(** The two configuration trees, [self.fr_config] and [self.fp_config]. *)
Inductive tree : Type := receiver | processor.

Definition config_of (t : tree) (c : client) : json :=
  match t with
  | receiver => fr_config c
  | processor => fp_config c
  end.

Definition set_config (t : tree) (v : json) : client -> client :=
  match t with
  | receiver => set_fr_config v
  | processor => set_fp_config v
  end.

Definition logger (lvl : level) (text : string) : M unit := emit (Log lvl text).

(** [_ensure_config_section(config, section)] where [config] is the object
    denoted by [self.<tree>[k1][k2]...]. *)
Definition _ensure_config_section (t : tree) (path : list string)
    (section : string) : M unit :=
  root <- gets (config_of t) ;;
  config <- lift (getpath root path) ;;
  present <- lift (py_in section config) ;;
  if present then ret tt
  else
    root' <- lift (write_at path section (JObj []) root) ;;
    modify (set_config t root') ;;
    logger DEBUG ("Created " ++ section ++ " section in config params").

(** [self.<tree>[k1][k2]...[k] = v]. *)
Definition assign (t : tree) (path : list string) (k : string) (v : json)
  : M unit :=
  root <- gets (config_of t) ;;
  root' <- lift (write_at path k v root) ;;
  modify (set_config t root').

Definition set_num_frames (n : Z) : M unit :=
  modify (set_frames n) ;;
  _ensure_config_section processor [] "hdf" ;;
  assign processor ["hdf"] "frames" (JInt n).

Definition set_file_path (p : string) : M unit :=
  modify (set_file_path_attr p) ;;
  _ensure_config_section processor [] "hdf" ;;
  _ensure_config_section processor ["hdf"] "file" ;;
  assign processor ["hdf"; "file"] "path" (JStr p).

Definition set_file_name (f : string) : M unit :=
  modify (set_file_name_attr f) ;;
  _ensure_config_section processor [] "hdf" ;;
  _ensure_config_section processor ["hdf"] "file" ;;
  assign processor ["hdf"; "file"] "name" (JStr f).

Definition rdtype_map : list (Z * Z) := [(1, 0); (6, 0); (12, 1); (24, 2)].

(** [rdtype_map[bitdepth]]. *)
Fixpoint int_getitem (m : list (Z * Z)) (k : Z) : result Z :=
  match m with
  | [] => Raise (KeyError (KInt k))
  | (k', v) :: m' => if Z.eqb k k' then Ok v else int_getitem m' k
  end.

Definition set_bitdepth (bitdepth : Z) : M unit :=
  let bitdepth_str := (format_d bitdepth ++ "-bit")%string in
  _ensure_config_section receiver [] "decoder_config" ;;
  assign receiver ["decoder_config"] "bitdepth" (JStr bitdepth_str) ;;
  _ensure_config_section processor [] "excalibur" ;;
  assign processor ["excalibur"] "bitdepth" (JStr bitdepth_str) ;;
  rdtype <- lift (int_getitem rdtype_map bitdepth) ;;
  _ensure_config_section processor [] "hdf" ;;
  _ensure_config_section processor ["hdf"] "dataset" ;;
  _ensure_config_section processor ["hdf"; "dataset"] "data" ;;
  assign processor ["hdf"; "dataset"; "data"] "datatype" (JInt rdtype).

(** [load_config(config_file)].  The [except] clause names
    [JSONDecodeError], bound at import to [json.decoder]'s class, and that
    is the only exception caught: any other one raised by [json.load] or by
    the lookups in the [try] block leaves the method. *)
Definition load_config (config_file : document) : M unit :=
  logger DEBUG
    ("Parsing default configuration from file " ++ doc_name config_file) ;;
  match config_file with
  | Malformed _ e =>
      logger ERROR ("Failed to parse configuration file: " ++ e)
  | Unreadable _ e => lift (Raise e)
  | Parsed _ config_params =>
      has_fr <- lift (py_in "receiver_default_config" config_params) ;;
      when has_fr
        (v <- lift (getitem config_params "receiver_default_config") ;;
         modify (set_fr_config v)) ;;
      has_fp <- lift (py_in "processor_default_config" config_params) ;;
      when has_fp
        (v <- lift (getitem config_params "processor_default_config") ;;
         modify (set_fp_config v)) ;;
      has_pl <- lift (py_in "processor_plugins" config_params) ;;
      when has_pl
        (v <- lift (getitem config_params "processor_plugins") ;;
         modify (set_fp_plugins v))
  end.

(** [_next_msg_id()]. *)
Definition _next_msg_id : M Z :=
  cur <- gets _msg_id ;;
  modify (set_msg_id ((cur + 1) mod MESSAGE_ID_MAX)) ;;
  gets _msg_id.

(** [channel.poll(timeout_ms)] and, on [POLLIN], [channel.recv()]: the next
    pending outcome, [None] when the wait times out. *)
Definition poll : M (option IpcMessage) :=
  fun w =>
    match inbox w with
    | [] => (Ok None, w)
    | o :: rest =>
        (Ok o, {| self := self w; trace := trace w; inbox := rest |})
    end.

Definition params_truthy (p : option json) : bool :=
  match p with
  | Some v => truthy v
  | None => false
  end.

(** [_send_cmd(channel, cmd, params=None)]. *)
Definition _send_cmd (ch : channel) (cmd : string) (p : option json)
  : M (option IpcMessage) :=
  i <- _next_msg_id ;;
  let cmd_msg :=
    {| msg_type := "cmd"; msg_val := cmd; id := i;
       params := if params_truthy p then p else None |} in
  emit (Send ch cmd_msg) ;;
  reply <- poll ;;
  ret reply.

Definition _send_config_cmd (ch : channel) (p : json) : M (option IpcMessage) :=
  _send_cmd ch "configure" (Some p).

Definition _send_status_cmd (ch : channel) : M (option IpcMessage) :=
  _send_cmd ch "status" None.

Definition channels : list (string * channel) :=
  [("receiver", fr_ctrl_channel); ("processor", fp_ctrl_channel)].

Section Client.

(** [IpcMessage.get_param] and [str(IpcMessage)] belong to the message
    envelope, which the client imports; the client's behaviour is
    established for every implementation of them. *)
Variable get_param : IpcMessage -> string -> result json.
Variable msg_str : IpcMessage -> string.

Definition log_reply (reply : option IpcMessage) : M unit :=
  match reply with
  | Some r => logger INFO ("Got response: " ++ msg_str r)
  | None => ret tt
  end.

(** One iteration of the status loop of [do_config_cmd]. *)
Definition settle_once : M unit :=
  status_reply <- _send_status_cmd fp_ctrl_channel ;;
  match status_reply with
  | Some r =>
      v <- lift (get_param r "shared_memory") ;;
      emit (Print v) ;;
      emit (Sleep 200)
  | None => ret tt
  end.

Definition do_config_cmd : M unit :=
  logger INFO "Sending configuration command to frame receiver" ;;
  fr <- gets fr_config ;;
  _send_config_cmd fr_ctrl_channel fr ;;
  fp <- gets fp_config ;;
  has_setup <- lift (py_in "fr_setup" fp) ;;
  when has_setup
    (logger INFO
       "Sending receiver plugin configuration command to frame processor" ;;
     v <- lift (getitem fp "fr_setup") ;;
     _send_config_cmd fp_ctrl_channel (JObj [("fr_setup", v)]) ;;
     ret tt) ;;
  for_range 10 settle_once ;;
  plugins <- gets fp_plugins ;;
  n <- lift (py_len plugins) ;;
  when (negb (Z.eqb n 0))
    (logger INFO
       ("Sending " ++ format_d n
        ++ " plugin chain configuration commands to frame processor") ;;
     items <- lift (py_iter plugins) ;;
     for_each items
       (fun plugin => _send_config_cmd fp_ctrl_channel plugin ;; ret tt)) ;;
  logger INFO
    "Sending plugin parameter configuration command to frame processor" ;;
  fp' <- gets fp_config ;;
  _send_config_cmd fp_ctrl_channel fp' ;;
  ret tt.

Definition set_file_writing (enable : bool) : M unit :=
  f <- gets file_name ;;
  set_file_name f ;;
  p <- gets file_path ;;
  set_file_path p ;;
  n <- gets frames ;;
  set_num_frames n ;;
  n' <- gets frames ;;
  assign processor ["hdf"] "frames" (JInt n') ;;
  assign processor ["hdf"] "write" (JBool enable) ;;
  logger INFO
    ("Sending file writing " ++ (if enable then "enable" else "disable")
     ++ " command to frame processor") ;;
  fp <- gets fp_config ;;
  hdf <- lift (getitem fp "hdf") ;;
  _send_config_cmd fp_ctrl_channel (JObj [("hdf", hdf)]) ;;
  ret tt.

Definition do_status_cmd : M unit :=
  for_each channels
    (fun nc =>
       logger INFO ("Sending status request to frame " ++ fst nc) ;;
       reply <- _send_status_cmd (snd nc) ;;
       log_reply reply).

Definition _do_cmd (cmd cmd_name : string) : M unit :=
  for_each channels
    (fun nc =>
       logger INFO
         ("Sending " ++ cmd_name ++ " command to frame " ++ fst nc) ;;
       reply <- _send_cmd (snd nc) cmd None ;;
       log_reply reply).

Definition do_request_config_cmd : M unit :=
  _do_cmd "request_configuration" "configuration request".

Definition do_request_version_cmd : M unit :=
  _do_cmd "request_version" "version request".

Definition do_reset_stats_cmd : M unit :=
  _do_cmd "reset_statistics" "statistics reset".

Definition do_shutdown_cmd : M unit :=
  logger INFO "Sending shutdown command to frame receiver" ;;
  reply <- _send_cmd fr_ctrl_channel "shutdown" None ;;
  log_reply reply ;;
  logger INFO "Sending shutdown config request to frame processor" ;;
  reply' <- _send_config_cmd fp_ctrl_channel (JObj [("shutdown", JBool true)]) ;;
  log_reply reply'.

End Client.

(** ** Setters and commands as data *)

Inductive setter : Type :=
| NumFrames (n : Z)
| FilePath (p : string)
| FileName (f : string)
| Bitdepth (b : Z).

Definition call (s : setter) : M unit :=
  match s with
  | NumFrames n => set_num_frames n
  | FilePath p => set_file_path p
  | FileName f => set_file_name f
  | Bitdepth b => set_bitdepth b
  end.


Definition call_all (ss : list setter) : M unit := for_each ss call.

Inductive command : Type :=
| LoadConfig (config_file : document)
| Set_ (s : setter)
| DoConfig
| SetFileWriting (enable : bool)
| DoStatus
| DoRequestConfig
| DoRequestVersion
| DoResetStats
| DoShutdown.

Section Commands.

Variable get_param : IpcMessage -> string -> result json.
Variable msg_str : IpcMessage -> string.

Definition exec (c : command) : M unit :=
  match c with
  | LoadConfig f => load_config f
  | Set_ s => call s
  | DoConfig => do_config_cmd get_param
  | SetFileWriting enable => set_file_writing enable
  | DoStatus => do_status_cmd msg_str
  | DoRequestConfig => do_request_config_cmd msg_str
  | DoRequestVersion => do_request_version_cmd msg_str
  | DoResetStats => do_reset_stats_cmd msg_str
  | DoShutdown => do_shutdown_cmd msg_str
  end.

End Commands.

(** ** Observations on states and traces *)

Definition is_log (e : event) : bool :=
  match e with
  | Log _ _ => true
  | _ => false
  end.

(** The messages sent, in order, each with its channel. *)
Fixpoint sends (tr : list event) : list (channel * IpcMessage) :=
  match tr with
  | [] => []
  | Send ch m :: tr' => (ch, m) :: sends tr'
  | _ :: tr' => sends tr'
  end.

Definition is_status_poll (e : event) : bool :=
  match e with
  | Send fp_ctrl_channel m => String.eqb (msg_val m) "status"
  | _ => false
  end.

Definition is_pause (e : event) : bool :=
  match e with
  | Sleep ms => Z.eqb ms 200
  | _ => false
  end.

Definition status_polls (tr : list event) : nat :=
  List.length (filter is_status_poll tr).

Definition pauses (tr : list event) : nat :=
  List.length (filter is_pause tr).

(** Every status request to the processor is followed by a 200 ms pause
    before anything else is sent; [pending] tells whether a request is still
    waiting for its pause. *)
Fixpoint pause_after_each_poll (pending : bool) (tr : list event) : bool :=
  match tr with
  | [] => negb pending
  | Send ch m :: tr' =>
      negb pending && pause_after_each_poll (is_status_poll (Send ch m)) tr'
  | Sleep ms :: tr' =>
      pause_after_each_poll (if Z.eqb ms 200 then false else pending) tr'
  | _ :: tr' => pause_after_each_poll pending tr'
  end.

(** The projection of SessionState onto the processor tree: each of the
    three leaves, where present, holds the session value. *)
Definition projection (c : client) : Prop :=
  (forall v, lookup (fp_config c) ["hdf"; "frames"] = Some v ->
             v = JInt (frames c)) /\
  (forall v, lookup (fp_config c) ["hdf"; "file"; "path"] = Some v ->
             v = JStr (file_path c)) /\
  (forall v, lookup (fp_config c) ["hdf"; "file"; "name"] = Some v ->
             v = JStr (file_name c)).

(** The ensure-then-assign shape all setters share: create the sections
    [todo] one below the other under [done], then assign the leaf. *)
Fixpoint write_path (t : tree) (done todo : list string) (k : string)
    (v : json) : M unit :=
  match todo with
  | [] => assign t done k v
  | s :: todo' =>
      _ensure_config_section t done s ;;
      write_path t (done ++ [s]) todo' k v
  end.

(** [w'] differs from [w] at most in tree [t] and in added log lines. *)
Definition touches (t : tree) (w w' : world) : Prop :=
  self w' = set_config t (config_of t (self w')) (self w) /\
  inbox w' = inbox w /\
  exists logs, trace w' = trace w ++ logs /\ forallb is_log logs = true.

(** The next message id. *)
Definition next_id (i : Z) : Z := (i + 1) mod MESSAGE_ID_MAX.

(** The state after [n] calls of the id generator. *)
Fixpoint after_ids (n : nat) (w : world) : world :=
  match n with
  | O => w
  | S n' => snd (_next_msg_id (after_ids n' w))
  end.

(** The id returned by call number [n + 1]. *)
Definition nth_id (n : nat) (w : world) : result Z :=
  fst (_next_msg_id (after_ids n w)).

(** The first [n] poll outcomes: those pending, then timeouts. *)
Fixpoint take_polls (n : nat) (pending : list (option IpcMessage))
  : list (option IpcMessage) :=
  match n with
  | O => []
  | S n' =>
      match pending with
      | [] => None :: take_polls n' []
      | o :: rest => o :: take_polls n' rest
      end
  end.

Definition replies (os : list (option IpcMessage)) : nat :=
  List.length (filter (fun o => match o with Some _ => true | None => false end) os).

Section Settling.

Variable get_param : IpcMessage -> string -> result json.

(** A reply whose [shared_memory] parameter can be read. *)
Definition readable (o : option IpcMessage) : bool :=
  match o with
  | Some r =>
      match get_param r "shared_memory" with
      | Ok _ => true
      | Raise _ => false
      end
  | None => true
  end.

(** What one status poll with message id [i] and outcome [o] adds to the
    trace: the request and, only when a reply came, the printed parameter
    and the 200 ms pause. *)
Definition poll_events (i : Z) (o : option IpcMessage) : list event :=
  Send fp_ctrl_channel
    {| msg_type := "cmd"; msg_val := "status"; id := i; params := None |}
  :: match o with
     | Some r =>
         match get_param r "shared_memory" with
         | Ok v => [Print v; Sleep 200]
         | Raise _ => []
         end
     | None => []
     end.

(** The polls with outcomes [os], the message id before them being [i]. *)
Fixpoint settling (i : Z) (os : list (option IpcMessage)) : list event :=
  match os with
  | [] => []
  | o :: os' => poll_events (next_id i) o ++ settling (next_id i) os'
  end.

End Settling.

(** A reply envelope read by named lookup in its [params] mapping. *)
Definition params_lookup (m : IpcMessage) (name : string) : result json :=
  match params m with
  | Some (JObj d) =>
      match dict_get name d with
      | Some v => Ok v
      | None => Raise (IpcMessageException ("Missing parameter " ++ name))
      end
  | _ => Raise (IpcMessageException ("Missing parameter " ++ name))
  end.

(** What [_ensure_config_section] makes of the tree it works on. *)
Definition ensure_tree (path : list string) (section : string) (root : json)
  : result json :=
  match getpath root path with
  | Ok config =>
      match py_in section config with
      | Ok true => Ok root
      | Ok false => write_at path section (JObj []) root
      | Raise e => Raise e
      end
  | Raise e => Raise e
  end.


(** The string [set_bitdepth] writes. *)
Definition bitdepth_str (b : Z) : string := (format_d b ++ "-bit")%string.

(** The setters of the three session values. *)
Definition is_session_setter (s : setter) : bool :=
  match s with
  | NumFrames _ | FilePath _ | FileName _ => true
  | Bitdepth _ => false
  end.

(** The session values a sequence of setter calls ends with. *)
Fixpoint latest_frames (ss : list setter) (cur : Z) : Z :=
  match ss with
  | [] => cur
  | NumFrames n :: ss' => latest_frames ss' n
  | _ :: ss' => latest_frames ss' cur
  end.

Fixpoint latest_file_path (ss : list setter) (cur : string) : string :=
  match ss with
  | [] => cur
  | FilePath p :: ss' => latest_file_path ss' p
  | _ :: ss' => latest_file_path ss' cur
  end.

Fixpoint latest_file_name (ss : list setter) (cur : string) : string :=
  match ss with
  | [] => cur
  | FileName f :: ss' => latest_file_name ss' f
  | _ :: ss' => latest_file_name ss' cur
  end.

(** [m] takes every state to an [R]-related one, whether it returns or
    raises. *)
Definition preserves {A : Type} (R : world -> world -> Prop) (m : M A) : Prop :=
  forall w, R w (snd (m w)).

(** The client's trees and session values are the same in both states. *)
Definition same_config (w w' : world) : Prop :=
  fr_config (self w') = fr_config (self w) /\
  fp_config (self w') = fp_config (self w) /\
  fp_plugins (self w') = fp_plugins (self w) /\
  frames (self w') = frames (self w) /\
  file_path (self w') = file_path (self w) /\
  file_name (self w') = file_name (self w).

(** A step keeps the projection. *)
Definition keeps_projection (w w' : world) : Prop :=
  projection (self w) -> projection (self w').

(** The three leaves that mirror session values, with the value each should
    hold. *)
Definition session_leaves (c : client) : list (list string * json) :=
  [(["hdf"; "frames"], JInt (frames c));
   (["hdf"; "file"; "path"], JStr (file_path c));
   (["hdf"; "file"; "name"], JStr (file_name c))].

Definition is_load_config (c : command) : bool :=
  match c with
  | LoadConfig _ => true
  | _ => false
  end.

(** A defaults document that sets a frame count in the processor tree. *)
Definition frames_document : document :=
  Parsed "defaults.json"
    (JObj [("processor_default_config",
            JObj [("hdf", JObj [("frames", JInt 5)])])]).

(** [w'] extends the trace of [w] by events among which there is neither a
    status request to the processor nor a 200 ms pause. *)
Definition no_poll_no_pause (w w' : world) : Prop :=
  exists evs, trace w' = trace w ++ evs /\
              status_polls evs = 0%nat /\ pauses evs = 0%nat.

(** The number of sends of [do_config_cmd] that come before its status
    loop. *)
Definition sends_before_polls (fp : json) : nat :=
  match py_in "fr_setup" fp with
  | Ok true => 2
  | _ => 1
  end.

(** ** The command line and the run *)

(** The namespace [argparse] returns: [None] for an option that was not
    given, [False] for a flag that was not given.  [_parse_arguments]
    narrows it further: [bitdepth], when given, is one of 1, 6, 12, 24
    ([choices]), and [start] and [stop] are never both set (they form a
    mutually exclusive group); see [args.parsed]. *)
Module args.

Record t : Type := mk {
  fr_ctrl_endpoint : string;
  fp_ctrl_endpoint : string;
  timeout_ms : Z;
  config_file : option document;
  config : bool;
  frames : option Z;
  bitdepth : option Z;
  start : bool;
  stop : bool;
  file_path : option string;
  file_name : option string;
  status : bool;
  getconfig : bool;
  version : bool;
  reset_stats : bool;
  shutdown : bool
}.

(** The namespaces [parse_args] can return. *)
Definition parsed (a : t) : bool :=
  match bitdepth a with
  | Some b => existsb (Z.eqb b) [1; 6; 12; 24]
  | None => true
  end
  && negb (start a && stop a).

End args.

(** What [_parse_arguments] returns for an empty command line. *)
Definition default_args : args.t :=
  {| args.fr_ctrl_endpoint := "tcp://127.0.0.1:5000";
     args.fp_ctrl_endpoint := "tcp://127.0.0.1:5004";
     args.timeout_ms := 1000;
     args.config_file := None;
     args.config := false;
     args.frames := None;
     args.bitdepth := None;
     args.start := false;
     args.stop := false;
     args.file_path := None;
     args.file_name := None;
     args.status := false;
     args.getconfig := false;
     args.version := false;
     args.reset_stats := false;
     args.shutdown := false |}.

(** [if n:] for an optional integer and [if s:] for an optional string. *)
Definition given_int (o : option Z) : option Z :=
  match o with
  | Some n => if Z.eqb n 0 then None else Some n
  | None => None
  end.

Definition given_str (o : option string) : option string :=
  match o with
  | Some s => if String.eqb s "" then None else Some s
  | None => None
  end.

Section Run.

Variable identity : channel -> string.
Variable get_param : IpcMessage -> string -> result json.
Variable msg_str : IpcMessage -> string.

(** [run()]. *)
Definition run (a : args.t) : M unit :=
  logger INFO "Odin data client starting up" ;;
  logger DEBUG
    ("Frame receiver control IPC channel has identity "
     ++ identity fr_ctrl_channel) ;;
  logger DEBUG
    ("Frame processor control IPC channel has identity "
     ++ identity fp_ctrl_channel) ;;
  match args.config_file a with
  | Some f => load_config f
  | None => ret tt
  end ;;
  match given_int (args.frames a) with
  | Some n => set_num_frames n
  | None => ret tt
  end ;;
  match given_int (args.bitdepth a) with
  | Some b => set_bitdepth b
  | None => ret tt
  end ;;
  match given_str (args.file_path a) with
  | Some p => set_file_path p
  | None => ret tt
  end ;;
  match given_str (args.file_name a) with
  | Some f => set_file_name f
  | None => ret tt
  end ;;
  when (args.config a) (do_config_cmd get_param) ;;
  (if args.start a then set_file_writing true
   else if args.stop a then set_file_writing false
   else ret tt) ;;
  when (args.status a) (do_status_cmd msg_str) ;;
  when (args.getconfig a) (do_request_config_cmd msg_str) ;;
  when (args.version a) (do_request_version_cmd msg_str) ;;
  when (args.reset_stats a) (do_reset_stats_cmd msg_str) ;;
  when (args.shutdown a) (do_shutdown_cmd msg_str).

(** The startup log lines of [run]. *)
Definition startup : M unit :=
  logger INFO "Odin data client starting up" ;;
  logger DEBUG
    ("Frame receiver control IPC channel has identity "
     ++ identity fr_ctrl_channel) ;;
  logger DEBUG
    ("Frame processor control IPC channel has identity "
     ++ identity fp_ctrl_channel).

Definition exec_all (cs : list command) : M unit :=
  for_each cs (exec get_param msg_str).

End Run.

Definition opt_list {A : Type} (o : option A) : list A :=
  match o with
  | Some x => [x]
  | None => []
  end.

Definition flag_list {A : Type} (b : bool) (x : A) : list A :=
  if b then [x] else [].

(** The operations a command line asks for, in the order [run] takes them:
    an option that is absent, 0 or empty asks for nothing, and [--start]
    goes before [--stop]. *)
Definition plan (a : args.t) : list command :=
  opt_list (option_map LoadConfig (args.config_file a))
  ++ opt_list (option_map (fun n => Set_ (NumFrames n)) (given_int (args.frames a)))
  ++ opt_list (option_map (fun b => Set_ (Bitdepth b)) (given_int (args.bitdepth a)))
  ++ opt_list (option_map (fun p => Set_ (FilePath p)) (given_str (args.file_path a)))
  ++ opt_list (option_map (fun f => Set_ (FileName f)) (given_str (args.file_name a)))
  ++ flag_list (args.config a) DoConfig
  ++ (if args.start a then [SetFileWriting true]
      else if args.stop a then [SetFileWriting false] else [])
  ++ flag_list (args.status a) DoStatus
  ++ flag_list (args.getconfig a) DoRequestConfig
  ++ flag_list (args.version a) DoRequestVersion
  ++ flag_list (args.reset_stats a) DoResetStats
  ++ flag_list (args.shutdown a) DoShutdown.

(** The ids of [n] messages sent after the counter stood at [i]. *)
Fixpoint id_chain (i : Z) (n : nat) : list Z :=
  match n with
  | O => []
  | S n' => next_id i :: id_chain (next_id i) n'
  end.

Fixpoint iter_id (n : nat) (i : Z) : Z :=
  match n with
  | O => i
  | S n' => iter_id n' (next_id i)
  end.

(** From [w] to [w'] messages were sent with consecutive ids, the counter
    followed them, and one poll outcome was taken for each message. *)
Definition lockstep (w w' : world) : Prop :=
  exists new,
    trace w' = trace w ++ new /\
    map (fun cm => id (snd cm)) (sends new)
      = id_chain (_msg_id (self w)) (List.length (sends new)) /\
    _msg_id (self w') = iter_id (List.length (sends new)) (_msg_id (self w)) /\
    inbox w' = skipn (List.length (sends new)) (inbox w).

(** What is seen of a message on the wire apart from its id. *)
Definition wire (cm : channel * IpcMessage) : channel * string * option json :=
  (fst cm, msg_val (snd cm), params (snd cm)).

(** The params a message carries for the argument [p]: none when [p] is
    false as a Python value. *)
Definition attached (p : json) : option json :=
  if truthy p then Some p else None.

(** The messages of a push-configuration, by step. *)
Definition push_wire (fr fp : json) (plugins : list json)
  : list (channel * string * option json) :=
  [(fr_ctrl_channel, "configure", attached fr)]
  ++ match getitem fp "fr_setup" with
     | Ok v => [(fp_ctrl_channel, "configure", Some (JObj [("fr_setup", v)]))]
     | Raise _ => []
     end
  ++ repeat (fp_ctrl_channel, "status", None) 10
  ++ map (fun p => (fp_ctrl_channel, "configure", attached p)) plugins
  ++ [(fp_ctrl_channel, "configure", attached fp)].

(** No message was sent and no poll outcome taken from [w] to [w']. *)
Definition silent (w w' : world) : Prop :=
  sends (trace w') = sends (trace w) /\
  inbox w' = inbox w /\
  _msg_id (self w') = _msg_id (self w).

Definition is_mapping (x : json) : bool :=
  match x with
  | JObj _ => true
  | _ => false
  end.

(** From [w] to [w'] only log lines were added to the trace; the message
    counter and the pending poll outcomes are as they were. *)
Definition logs_only (w w' : world) : Prop :=
  (exists logs, trace w' = trace w ++ logs /\ forallb is_log logs = true) /\
  inbox w' = inbox w /\
  _msg_id (self w') = _msg_id (self w).

(** The outcome of an operation that sends the processor one [configure]
    message exactly when it returns: seen from [w], a result and final
    state [rw] either returned having sent that one message, or raised
    having sent none. *)
Definition sent_iff_returned (w : world) (rw : result unit * world) : Prop :=
  match fst rw with
  | Ok _ =>
      exists m, sends (trace (snd rw)) = sends (trace w) ++ [(fp_ctrl_channel, m)] /\
                msg_val m = "configure"
  | Raise _ => sends (trace (snd rw)) = sends (trace w)
  end.

(** The value an attribute of [self] takes from a defaults document. *)
Definition default_of (d : dict) (name : string) (old : json) : json :=
  match dict_get name d with
  | Some v => v
  | None => old
  end.

(** The messages of a push-configuration up to its status loop. *)
Definition push_head (fr fp : json) : list (channel * string * option json) :=
  [(fr_ctrl_channel, "configure", attached fr)]
  ++ match getitem fp "fr_setup" with
     | Ok v => [(fp_ctrl_channel, "configure", Some (JObj [("fr_setup", v)]))]
     | Raise _ => []
     end.

(** A defaults document with an [fr_setup] section and one plugin fragment. *)
Definition setup_document : document :=
  Parsed "defaults.json"
    (JObj [("processor_default_config",
            JObj [("fr_setup", JObj [("x", JInt 1)])]);
           ("processor_plugins",
            JList [JObj [("plugin", JObj [("load", JStr "hdf")])]])]).

(** A status reply without a [shared_memory] parameter. *)
Definition bare_reply : IpcMessage :=
  {| msg_type := "ack"; msg_val := "status"; id := 2; params := None |}.

(** The three session values are the same in both states. *)
Definition session_kept (w w' : world) : Prop :=
  frames (self w') = frames (self w) /\
  file_path (self w') = file_path (self w) /\
  file_name (self w') = file_name (self w).

(** A status reply that carries a [shared_memory] parameter, and the
    acknowledgement of a [configure] command, which carries no params. *)
Definition ready_reply : IpcMessage :=
  {| msg_type := "ack"; msg_val := "status"; id := 3;
     params := Some (JObj [("shared_memory", JBool true)]) |}.

Definition configure_ack : IpcMessage :=
  {| msg_type := "ack"; msg_val := "configure"; id := 1; params := None |}.

(** Poll outcomes of a push-configuration in which each of the [before]
    [configure] commands sent ahead of the status loop and each of the
    [after] ones sent behind it is acknowledged, and of the ten status
    requests the second is answered and the others time out. *)
Definition acked_push (before after : nat) : list (option IpcMessage) :=
  repeat (Some configure_ack) before
  ++ [None; Some ready_reply] ++ repeat None 8
  ++ repeat (Some configure_ack) after.

(** ** Facts about dicts and paths *)

Lemma dict_get_set_eq (k : string) (v : json) (d : dict) :
  dict_get k (dict_set k v d) = Some v.
Proof.
  induction d as [|[k' v'] d IH]; simpl.
  - now rewrite String.eqb_refl.
  - destruct (String.eqb k k') eqn:E; simpl; rewrite E; auto.
Qed.

Lemma dict_get_set_ne (k k' : string) (v : json) (d : dict) :
  k <> k' -> dict_get k' (dict_set k v d) = dict_get k' d.
Proof.
  intros Hne. induction d as [|[k0 v0] d IH]; simpl.
  - destruct (String.eqb k' k) eqn:E; auto.
    apply String.eqb_eq in E. congruence.
  - destruct (String.eqb k k0) eqn:E; simpl.
    + apply String.eqb_eq in E. subst k0.
      destruct (String.eqb k' k) eqn:E'; auto.
      apply String.eqb_eq in E'. congruence.
    + now rewrite IH.
Qed.


Lemma lookup_nil (root : json) : lookup root [] = Some root.
Proof. reflexivity. Qed.

Lemma lookup_cons (root : json) (k : string) (ks : list string) :
  lookup root (k :: ks) =
  match root with
  | JObj d =>
      match dict_get k d with
      | Some child => lookup child ks
      | None => None
      end
  | _ => None
  end.
Proof.
  unfold lookup. simpl.
  destruct root; simpl; auto.
  destruct (dict_get k d); auto.
Qed.

Lemma lookup_app (root : json) (p q : list string) :
  lookup root (p ++ q)%list =
  match lookup root p with
  | Some c => lookup c q
  | None => None
  end.
Proof.
  revert root. induction p as [|k p IH]; intros root; simpl.
  - reflexivity.
  - rewrite !lookup_cons. destruct root; auto.
    destruct (dict_get k d); auto.
Qed.

Lemma getpath_lookup (root : json) (p : list string) (v : json) :
  getpath root p = Ok v <-> lookup root p = Some v.
Proof.
  unfold lookup. destruct (getpath root p); split; congruence.
Qed.

Lemma is_prefix_app (p q : list string) :
  is_prefix p q = true -> exists rest, q = (p ++ rest)%list.
Proof.
  revert q. induction p as [|a p IH]; intros q H; simpl in *.
  - now exists q.
  - destruct q as [|b q]; [discriminate|].
    apply andb_true_iff in H. destruct H as [E H].
    apply String.eqb_eq in E. subst b.
    destruct (IH _ H) as [rest ->]. now exists rest.
Qed.

Lemma is_prefix_refl_app (p q : list string) : is_prefix p (p ++ q) = true.
Proof.
  induction p as [|a p IH]; simpl; auto.
  now rewrite String.eqb_refl.
Qed.

(** ** Writing a key of the dict at a path *)

Lemma write_at_nil (k : string) (v root : json) :
  write_at [] k v root = setitem root k v.
Proof. reflexivity. Qed.

Lemma write_at_cons (a : string) (p : list string) (k : string) (v root : json) :
  write_at (a :: p) k v root =
  match getitem root a with
  | Ok child =>
      match write_at p k v child with
      | Ok child' => setitem root a child'
      | Raise e => Raise e
      end
  | Raise e => Raise e
  end.
Proof. reflexivity. Qed.

(** A write that happens found a dict at the end of its path. *)
Lemma write_at_inv (p : list string) (k : string) (v root root' : json) :
  write_at p k v root = Ok root' ->
  exists d, getpath root p = Ok (JObj d).
Proof.
  revert root root'. induction p as [|a p IH]; intros root root' H.
  - rewrite write_at_nil in H. destruct root; try discriminate. now exists d.
  - rewrite write_at_cons in H. simpl.
    destruct (getitem root a) as [child|]; [|discriminate].
    destruct (write_at p k v child) as [child'|] eqn:E; [|discriminate].
    eauto.
Qed.

(** A write into an existing dict happens. *)
Lemma write_at_ok (p : list string) (k : string) (v root : json) (d : dict) :
  getpath root p = Ok (JObj d) ->
  exists root', write_at p k v root = Ok root'.
Proof.
  revert root. induction p as [|a p IH]; intros root H.
  - simpl in H. injection H as ->. rewrite write_at_nil. simpl. eauto.
  - rewrite write_at_cons. simpl in H.
    destruct root; try discriminate. simpl in *.
    destruct (dict_get a d0) as [child|]; [|discriminate].
    destruct (IH _ H) as [child' ->]. eauto.
Qed.

(** After a write, the written key holds the value. *)
Lemma write_at_below (p : list string) (k : string) (v root root' : json)
    (rest : list string) :
  write_at p k v root = Ok root' ->
  lookup root' (p ++ k :: rest) = lookup v rest.
Proof.
  revert root root'. induction p as [|a p IH]; intros root root' H.
  - rewrite write_at_nil in H. destruct root; try discriminate.
    injection H as <-. simpl. rewrite lookup_cons, dict_get_set_eq. reflexivity.
  - rewrite write_at_cons in H.
    destruct root; try discriminate. simpl in H.
    destruct (dict_get a d) as [child|]; [|discriminate].
    destruct (write_at p k v child) as [child'|] eqn:E; [|discriminate].
    injection H as <-. simpl. rewrite lookup_cons, dict_get_set_eq. eauto.
Qed.

Lemma write_at_leaf (p : list string) (k : string) (v root root' : json) :
  write_at p k v root = Ok root' -> lookup root' (p ++ [k]) = Some v.
Proof.
  intros H. now rewrite (write_at_below _ _ _ _ _ [] H).
Qed.

(** A write leaves alone every path that parts from the written one. *)
Lemma write_at_frame (p : list string) (k : string) (v root root' : json)
    (q : list string) :
  write_at p k v root = Ok root' ->
  apart q (p ++ [k]) = true ->
  lookup root' q = lookup root q.
Proof.
  unfold apart.
  revert root root' q. induction p as [|a p IH]; intros root root' q H Hq.
  - rewrite write_at_nil in H. destruct root; try discriminate.
    injection H as <-.
    destruct q as [|b q]; [discriminate|].
    simpl in Hq. rewrite !lookup_cons.
    destruct (String.eqb b k) eqn:E.
    + apply String.eqb_eq in E. subst b.
      rewrite String.eqb_refl in Hq. simpl in Hq.
      rewrite andb_false_r in Hq. discriminate.
    + rewrite dict_get_set_ne; auto.
      intros ->. now rewrite String.eqb_refl in E.
  - rewrite write_at_cons in H.
    destruct root; try discriminate. simpl in H.
    destruct (dict_get a d) as [child|] eqn:Ea; [|discriminate].
    destruct (write_at p k v child) as [child'|] eqn:E; [|discriminate].
    injection H as <-.
    destruct q as [|b q]; [discriminate|].
    simpl in Hq. rewrite !lookup_cons.
    destruct (String.eqb b a) eqn:Eb.
    + apply String.eqb_eq in Eb. subst b.
      rewrite String.eqb_refl in Hq. simpl in Hq.
      rewrite dict_get_set_eq, Ea. eauto.
    + rewrite dict_get_set_ne; auto.
      intros ->. now rewrite String.eqb_refl in Eb.
Qed.


(** Creating an empty section where there was none changes no path except
    the sections above it and the new section itself. *)
Lemma write_at_fresh (p : list string) (k : string) (root root' : json)
    (q : list string) :
  write_at p k (JObj []) root = Ok root' ->
  lookup root (p ++ [k]) = None ->
  is_prefix q (p ++ [k]) = false ->
  lookup root' q = lookup root q.
Proof.
  intros H Habs Hq.
  destruct (is_prefix (p ++ [k]) q) eqn:E.
  - apply is_prefix_app in E. destruct E as [rest ->].
    destruct rest as [|r rest].
    + pose proof (is_prefix_refl_app (p ++ [k]) []) as R.
      rewrite app_nil_r in *. congruence.
    + rewrite <- app_assoc. simpl.
      rewrite (write_at_below _ _ _ _ _ (r :: rest) H).
      replace (p ++ k :: r :: rest) with ((p ++ [k]) ++ r :: rest)
        by now rewrite <- app_assoc.
      rewrite (lookup_app root), Habs. reflexivity.
  - apply (write_at_frame _ _ _ _ _ _ H). unfold apart. now rewrite Hq, E.
Qed.

(** A write keeps a tree a nested mapping along [q], unless it puts a
    non-section on [q] itself. *)
Lemma write_at_sections (p : list string) (k : string) (v root root' : json)
    (q : list string) :
  write_at p k v root = Ok root' ->
  sections_ok q root = true ->
  is_prefix (p ++ [k]) q = false \/ v = JObj [] ->
  sections_ok q root' = true.
Proof.
  revert root root' q. induction p as [|a p IH]; intros root root' q H Hs Hq.
  - rewrite write_at_nil in H. destruct root; try discriminate.
    injection H as <-. destruct q as [|b q]; auto.
    simpl in *. destruct (String.eqb k b) eqn:E.
    + apply String.eqb_eq in E. subst b. rewrite dict_get_set_eq.
      destruct Hq as [Hq| ->]; [discriminate|]. now destruct q.
    + rewrite dict_get_set_ne; auto.
      intros ->. now rewrite String.eqb_refl in E.
  - rewrite write_at_cons in H.
    destruct root; try discriminate. simpl in H.
    destruct (dict_get a d) as [child|] eqn:Ea; [|discriminate].
    destruct (write_at p k v child) as [child'|] eqn:E; [|discriminate].
    injection H as <-. destruct q as [|b q]; auto.
    simpl in *. destruct (String.eqb a b) eqn:Eb.
    + apply String.eqb_eq in Eb. subst b.
      rewrite dict_get_set_eq. rewrite Ea in Hs.
      apply (IH _ _ _ E Hs). simpl in Hq. exact Hq.
    + rewrite dict_get_set_ne; auto.
      intros ->. now rewrite String.eqb_refl in Eb.
Qed.

Lemma getpath_app (root : json) (p q : list string) :
  getpath root (p ++ q) =
  match getpath root p with
  | Ok c => getpath c q
  | Raise e => Raise e
  end.
Proof.
  revert root. induction p as [|a p IH]; intros root; simpl; auto.
  destruct (getitem root a); auto.
Qed.


(** ** What ensuring a section does to a tree *)

Lemma py_in_dict (s : string) (node : json) (b : bool) (d : dict) :
  node = JObj d ->
  py_in s node = Ok b ->
  b = match dict_get s d with Some _ => true | None => false end.
Proof. intros -> H. simpl in H. congruence. Qed.

Lemma ensure_tree_present (p : list string) (s : string) (root x : json) :
  lookup root (p ++ [s]) = Some x -> ensure_tree p s root = Ok root.
Proof.
  intros H. rewrite lookup_app in H. unfold ensure_tree.
  destruct (lookup root p) as [node|] eqn:E; [|discriminate].
  apply getpath_lookup in E. rewrite E.
  rewrite lookup_cons in H. destruct node; try discriminate.
  simpl. destruct (dict_get s d); [reflexivity|discriminate].
Qed.

(** When a section gets created there was nothing under its key. *)
Lemma ensure_tree_created (p : list string) (s : string) (root node : json) :
  getpath root p = Ok node ->
  py_in s node = Ok false ->
  forall root', write_at p s (JObj []) root = Ok root' ->
  lookup root (p ++ [s]) = None.
Proof.
  intros Hn Hin root' Hw.
  destruct (write_at_inv _ _ _ _ _ Hw) as [d Hd].
  rewrite Hn in Hd. injection Hd as ->.
  rewrite lookup_app. apply getpath_lookup in Hn. rewrite Hn.
  rewrite lookup_cons. simpl in Hin.
  destruct (dict_get s d); [discriminate|reflexivity].
Qed.

Lemma ensure_tree_frame (p : list string) (s : string) (root root' : json)
    (q : list string) :
  ensure_tree p s root = Ok root' ->
  is_prefix q (p ++ [s]) = false ->
  lookup root' q = lookup root q.
Proof.
  unfold ensure_tree. intros H Hq.
  destruct (getpath root p) as [node|] eqn:Hn; [|discriminate].
  destruct (py_in s node) as [[|]|] eqn:Hin; try discriminate.
  - now injection H as <-.
  - eapply write_at_fresh; eauto using ensure_tree_created.
Qed.



(** On a nested mapping, ensuring the next section succeeds and leaves a
    nested mapping below it. *)
Lemma ensure_tree_step (p : list string) (s : string) (rest : list string)
    (root node : json) :
  getpath root p = Ok node ->
  sections_ok (s :: rest) node = true ->
  exists root' node',
    ensure_tree p s root = Ok root' /\
    getpath root' (p ++ [s]) = Ok node' /\
    sections_ok rest node' = true.
Proof.
  intros Hn Hs. unfold ensure_tree. rewrite Hn.
  destruct node; try discriminate. simpl in Hs |- *.
  destruct (dict_get s d) as [child|] eqn:Ed.
  - exists root, child. repeat split; auto.
    rewrite getpath_app, Hn. simpl. now rewrite Ed.
  - destruct (write_at_ok p s (JObj []) root d Hn) as [root' Hw].
    exists root', (JObj []). repeat split; auto.
    + apply getpath_lookup. now apply write_at_leaf with (root := root).
    + now destruct rest.
Qed.

Lemma ensure_tree_sections (p : list string) (s : string) (root root' : json)
    (q : list string) :
  ensure_tree p s root = Ok root' ->
  sections_ok q root = true -> sections_ok q root' = true.
Proof.
  unfold ensure_tree. intros H Hs.
  destruct (getpath root p) as [node|] eqn:Hn; [|discriminate].
  destruct (py_in s node) as [[|]|] eqn:Hin; try discriminate.
  - now injection H as <-.
  - eapply write_at_sections; eauto.
Qed.




(** ** Running the tree primitives *)

Lemma set_config_get (t : tree) (v : json) (c : client) :
  config_of t (set_config t v c) = v.
Proof. now destruct t. Qed.

Lemma set_config_other (t t' : tree) (v : json) (c : client) :
  t <> t' -> config_of t' (set_config t v c) = config_of t' c.
Proof. destruct t, t'; simpl; congruence. Qed.

Lemma set_config_same (t : tree) (c : client) :
  set_config t (config_of t c) c = c.
Proof. now destruct t, c. Qed.

Lemma set_config_twice (t : tree) (v v' : json) (c : client) :
  set_config t v' (set_config t v c) = set_config t v' c.
Proof. now destruct t. Qed.

Lemma touches_refl (t : tree) (w : world) : touches t w w.
Proof.
  unfold touches. rewrite set_config_same. repeat split.
  exists []. now rewrite app_nil_r.
Qed.

Lemma touches_trans (t : tree) (w1 w2 w3 : world) :
  touches t w1 w2 -> touches t w2 w3 -> touches t w1 w3.
Proof.
  intros (S1 & I1 & l1 & T1 & L1) (S2 & I2 & l2 & T2 & L2).
  unfold touches. repeat split.
  - rewrite S2 at 1. rewrite S1. apply set_config_twice.
  - congruence.
  - exists (l1 ++ l2). rewrite T2, T1, app_assoc, forallb_app, L1, L2. auto.
Qed.

(** What stays the same across a change that touches one tree. *)
Lemma touches_session (t : tree) (w w' : world) :
  touches t w w' ->
  frames (self w') = frames (self w) /\
  file_path (self w') = file_path (self w) /\
  file_name (self w') = file_name (self w) /\
  fp_plugins (self w') = fp_plugins (self w) /\
  _msg_id (self w') = _msg_id (self w).
Proof. intros (S & _). rewrite S. now destruct t. Qed.

Lemma touches_other (t t' : tree) (w w' : world) :
  touches t w w' -> t <> t' ->
  config_of t' (self w') = config_of t' (self w).
Proof. intros (S & _) H. rewrite S. now apply set_config_other. Qed.

Lemma ensure_run (t : tree) (p : list string) (s : string) (w : world) :
  match ensure_tree p s (config_of t (self w)) with
  | Ok root' =>
      exists w', _ensure_config_section t p s w = (Ok tt, w') /\
                 touches t w w' /\ config_of t (self w') = root'
  | Raise e => _ensure_config_section t p s w = (Raise e, w)
  end.
Proof.
  unfold ensure_tree, _ensure_config_section, bind, gets, lift. simpl.
  destruct (getpath (config_of t (self w)) p) as [node|]; auto.
  destruct (py_in s node) as [[|]|]; auto.
  - exists w. split; [reflexivity|]. split; [apply touches_refl|reflexivity].
  - destruct (write_at p s (JObj []) (config_of t (self w))) as [root'|]; auto.
    simpl. eexists. split; [reflexivity|]. simpl.
    split; [|apply set_config_get].
    unfold touches. simpl. rewrite set_config_get. repeat split. eauto.
Qed.

Lemma assign_run (t : tree) (p : list string) (k : string) (v : json)
    (w : world) :
  match write_at p k v (config_of t (self w)) with
  | Ok root' =>
      exists w', assign t p k v w = (Ok tt, w') /\
                 touches t w w' /\ config_of t (self w') = root'
  | Raise e => assign t p k v w = (Raise e, w)
  end.
Proof.
  unfold assign, bind, gets, lift. simpl.
  destruct (write_at p k v (config_of t (self w))) as [root'|]; auto.
  simpl. eexists. split; [reflexivity|]. simpl.
  split; [|apply set_config_get].
  unfold touches. simpl. rewrite set_config_get. repeat split.
  exists []. now rewrite app_nil_r.
Qed.

(** Case analysis on the next [_ensure_config_section] or [assign] of a
    goal about [write_path]. *)
Ltac run_ensure t p s w w1 :=
  let R := fresh "R" in
  let E := fresh "E" in
  let root1 := fresh "root1" in
  let T := fresh "T" in
  let C := fresh "C" in
  pose proof (ensure_run t p s w) as R;
  destruct (ensure_tree p s (config_of t (self w))) as [root1|] eqn:E;
  [destruct R as (w1 & R & T & C)|];
  simpl; unfold bind; rewrite R; simpl.

Ltac run_assign t p k v w w1 :=
  let R := fresh "R" in
  let E := fresh "E" in
  let root1 := fresh "root1" in
  let T := fresh "T" in
  let C := fresh "C" in
  pose proof (assign_run t p k v w) as R;
  destruct (write_at p k v (config_of t (self w))) as [root1|] eqn:E;
  [destruct R as (w1 & R & T & C)|];
  simpl; rewrite R; simpl.

Lemma app_snoc_cons (p : list string) (s : string) (q : list string) :
  (p ++ [s]) ++ q = p ++ s :: q.
Proof. now rewrite <- app_assoc. Qed.

Lemma is_prefix_trans (p q r : list string) :
  is_prefix p q = true -> is_prefix q r = true -> is_prefix p r = true.
Proof.
  intros H1 H2. apply is_prefix_app in H1, H2.
  destruct H1 as [x ->], H2 as [y ->].
  rewrite <- app_assoc. apply is_prefix_refl_app.
Qed.

(** A path that parts from the leaf is not above any section on the way to
    the leaf. *)
Lemma apart_not_above (q p : list string) (s : string) (rest : list string) :
  apart q (p ++ s :: rest) = true -> is_prefix q (p ++ [s]) = false.
Proof.
  unfold apart. intros H. apply andb_true_iff in H. destruct H as [H _].
  destruct (is_prefix q (p ++ [s])) eqn:E; auto.
  rewrite (is_prefix_trans q (p ++ [s]) (p ++ s :: rest)) in H; auto.
  rewrite <- (app_snoc_cons p s rest). apply is_prefix_refl_app.
Qed.

Section WritePath.

Variable t : tree.
Variable k : string.
Variable v : json.

(** Whatever the outcome, only tree [t] and the log are touched. *)
Lemma write_path_touches (todo done : list string) (w : world) :
  touches t w (snd (write_path t done todo k v w)).
Proof.
  revert done w. induction todo as [|s todo IH]; intros done w.
  - run_assign t done k v w w1; auto using touches_refl.
  - run_ensure t done s w w1; auto using touches_refl.
    eapply touches_trans; eauto.
Qed.

(** Whatever the outcome, paths that part from the leaf are left alone. *)
Lemma write_path_frame (todo done : list string) (w : world) (q : list string) :
  apart q (done ++ todo ++ [k]) = true ->
  lookup (config_of t (self (snd (write_path t done todo k v w)))) q =
  lookup (config_of t (self w)) q.
Proof.
  revert done w. induction todo as [|s todo IH]; intros done w Hq.
  - run_assign t done k v w w1; auto.
    rewrite C. eapply write_at_frame; eauto.
  - run_ensure t done s w w1; auto.
    rewrite IH by now rewrite app_snoc_cons.
    rewrite C. eapply ensure_tree_frame; eauto.
    eapply apart_not_above; eauto.
Qed.


(** On a nested mapping the sections get created and the leaf is written. *)
Lemma write_path_ok (todo done : list string) (w : world) (node : json) :
  getpath (config_of t (self w)) done = Ok node ->
  sections_ok todo node = true ->
  fst (write_path t done todo k v w) = Ok tt /\
  lookup (config_of t (self (snd (write_path t done todo k v w))))
         (done ++ todo ++ [k]) = Some v.
Proof.
  revert done w node. induction todo as [|s todo IH]; intros done w node Hn Hs.
  - destruct node; try discriminate.
    destruct (write_at_ok done k v _ _ Hn) as [root' Hw].
    run_assign t done k v w w1; [|congruence].
    split; auto. rewrite C. eapply write_at_leaf; eauto.
  - destruct (ensure_tree_step _ _ _ _ _ Hn Hs) as (root' & node' & He & Hn' & Hs').
    run_ensure t done s w w1; [|congruence].
    rewrite <- (app_snoc_cons done s (todo ++ [k])).
    apply IH with (node := node'); auto.
    rewrite C. congruence.
Qed.

(** Whatever the outcome, a leaf that is present afterwards holds [v]. *)
Lemma write_path_leaf (todo done : list string) (w : world) (x : json) :
  lookup (config_of t (self (snd (write_path t done todo k v w))))
         (done ++ todo ++ [k]) = Some x ->
  x = v.
Proof.
  revert done w. induction todo as [|s todo IH]; intros done w.
  - run_assign t done k v w w1.
    + rewrite C, (write_at_leaf _ _ _ _ _ E). congruence.
    + intros H. exfalso. rewrite lookup_app in H.
      destruct (lookup (config_of t (self w)) done) as [node|] eqn:Hn;
        [|discriminate].
      rewrite lookup_cons in H. destruct node; try discriminate.
      apply getpath_lookup in Hn.
      destruct (write_at_ok done k v _ _ Hn) as [root' Hw]. congruence.
  - run_ensure t done s w w1.
    + rewrite <- (app_snoc_cons done s (todo ++ [k])). apply IH.
    + intros H. exfalso.
      rewrite <- (app_snoc_cons done s (todo ++ [k])), lookup_app in H.
      destruct (lookup (config_of t (self w)) (done ++ [s])) as [node|] eqn:Hn;
        [|discriminate].
      rewrite (ensure_tree_present _ _ _ _ Hn) in E. discriminate.
Qed.

(** Whatever the outcome, nested mappings along other paths stay so. *)
Lemma write_path_sections (todo done : list string) (w : world)
    (q : list string) :
  sections_ok q (config_of t (self w)) = true ->
  is_prefix (done ++ todo ++ [k]) q = false ->
  sections_ok q (config_of t (self (snd (write_path t done todo k v w)))) = true.
Proof.
  revert done w. induction todo as [|s todo IH]; intros done w Hs Hq.
  - run_assign t done k v w w1; auto.
    rewrite C. eapply write_at_sections; eauto.
  - run_ensure t done s w w1; auto.
    apply IH.
    + rewrite C. eapply ensure_tree_sections; eauto.
    + now rewrite app_snoc_cons.
Qed.


End WritePath.

(** Everything known about one ensure-then-assign run on a nested mapping. *)
Lemma write_path_run (t : tree) (k : string) (v : json) (todo : list string)
    (w : world) :
  sections_ok todo (config_of t (self w)) = true ->
  exists w',
    write_path t [] todo k v w = (Ok tt, w') /\
    touches t w w' /\
    lookup (config_of t (self w')) (todo ++ [k]) = Some v /\
    (forall q, apart q (todo ++ [k]) = true ->
               lookup (config_of t (self w')) q = lookup (config_of t (self w)) q) /\
    (forall q, sections_ok q (config_of t (self w)) = true ->
               is_prefix (todo ++ [k]) q = false ->
               sections_ok q (config_of t (self w')) = true).
Proof.
  intros Hs.
  destruct (write_path_ok t k v todo [] w _ eq_refl Hs) as [Hr Hl].
  pose proof (write_path_touches t k v todo [] w) as Ht.
  pose proof (write_path_frame t k v todo [] w) as Hf.
  pose proof (write_path_sections t k v todo [] w) as Hk.
  destruct (write_path t [] todo k v w) as [r w']. simpl in *. subst r.
  exists w'. auto 10.
Qed.

(** ** Sequencing *)

Lemma bind_run {A B : Type} (m : M A) (f : A -> M B) (w : world) :
  bind m f w =
  match fst (m w) with
  | Ok a => f a (snd (m w))
  | Raise e => (Raise e, snd (m w))
  end.
Proof. unfold bind. now destruct (m w) as [[a|e] w']. Qed.

Lemma bind_ok {A B : Type} (m : M A) (f : A -> M B) (w w' : world) (a : A) :
  m w = (Ok a, w') -> bind m f w = f a w'.
Proof. intros H. unfold bind. now rewrite H. Qed.

Lemma bind_raise {A B : Type} (m : M A) (f : A -> M B) (w w' : world) (e : exn) :
  m w = (Raise e, w') -> bind m f w = (Raise e, w').
Proof. intros H. unfold bind. now rewrite H. Qed.

Section Preserve.

Variable R : world -> world -> Prop.
Hypothesis R_refl : forall w, R w w.
Hypothesis R_trans : forall w1 w2 w3, R w1 w2 -> R w2 w3 -> R w1 w3.

Lemma preserves_ret {A : Type} (a : A) : preserves R (ret a).
Proof. intros w. apply R_refl. Qed.

Lemma preserves_lift {A : Type} (r : result A) : preserves R (lift r).
Proof. intros w. apply R_refl. Qed.

Lemma preserves_gets {A : Type} (f : client -> A) : preserves R (gets f).
Proof. intros w. apply R_refl. Qed.

Lemma preserves_bind_at {A B : Type} (m : M A) (f : A -> M B) (w : world) :
  R w (snd (m w)) -> (forall a, preserves R (f a)) -> R w (snd (bind m f w)).
Proof.
  intros Hm Hf. rewrite bind_run.
  destruct (fst (m w)) as [a|e]; simpl; auto.
  apply R_trans with (w2 := snd (m w)); auto. apply Hf.
Qed.

Lemma preserves_bind {A B : Type} (m : M A) (f : A -> M B) :
  preserves R m -> (forall a, preserves R (f a)) -> preserves R (bind m f).
Proof. intros Hm Hf w. now apply preserves_bind_at. Qed.

Lemma preserves_gets_bind {A B : Type} (g : client -> A) (f : A -> M B) :
  (forall w, R w (snd (f (g (self w)) w))) -> preserves R (bind (gets g) f).
Proof. intros H w. apply H. Qed.

Lemma preserves_when (b : bool) (m : M unit) : preserves R m -> preserves R (when b m).
Proof. destruct b; simpl; auto using preserves_ret. Qed.

Lemma preserves_for_range (n : nat) (m : M unit) :
  preserves R m -> preserves R (for_range n m).
Proof.
  intros H. induction n; simpl; auto using preserves_ret, preserves_bind.
Qed.

Lemma preserves_for_each {A : Type} (items : list A) (f : A -> M unit) :
  (forall x, preserves R (f x)) -> preserves R (for_each items f).
Proof.
  intros H. induction items; simpl; auto using preserves_ret, preserves_bind.
Qed.

End Preserve.

Lemma same_config_refl (w : world) : same_config w w.
Proof. unfold same_config. auto 10. Qed.

Lemma same_config_trans (w1 w2 w3 : world) :
  same_config w1 w2 -> same_config w2 w3 -> same_config w1 w3.
Proof. unfold same_config. intuition congruence. Qed.

#[local] Hint Resolve same_config_refl same_config_trans : core.

Lemma send_cmd_same_config (ch : channel) (cmd : string) (p : option json) :
  preserves same_config (_send_cmd ch cmd p).
Proof.
  intros w. unfold _send_cmd, _next_msg_id, bind, gets, modify, emit, poll, ret.
  simpl. destruct (inbox w); simpl; unfold same_config; simpl; auto 10.
Qed.

Lemma logger_same_config (lvl : level) (text : string) :
  preserves same_config (logger lvl text).
Proof. intros w. unfold same_config. simpl. auto 10. Qed.

Lemma emit_same_config (e : event) : preserves same_config (emit e).
Proof. intros w. unfold same_config. simpl. auto 10. Qed.

(** ** Sending a command *)

Lemma next_msg_id_run (w : world) :
  _next_msg_id w =
  (Ok (next_id (_msg_id (self w))),
   {| self := set_msg_id (next_id (_msg_id (self w))) (self w);
      trace := trace w; inbox := inbox w |}).
Proof. reflexivity. Qed.

Lemma send_cmd_run (ch : channel) (cmd : string) (p : option json) (w : world) :
  _send_cmd ch cmd p w =
  (Ok (hd None (inbox w)),
   {| self := set_msg_id (next_id (_msg_id (self w))) (self w);
      trace := trace w ++
               [Send ch {| msg_type := "cmd"; msg_val := cmd;
                           id := next_id (_msg_id (self w));
                           params := if params_truthy p then p else None |}];
      inbox := tl (inbox w) |}).
Proof.
  unfold _send_cmd. rewrite (bind_ok _ _ _ _ _ (next_msg_id_run w)).
  unfold bind, emit, poll, ret. cbn [self trace inbox].
  destruct (inbox w) as [|o rest]; reflexivity.
Qed.

Lemma logger_run (lvl : level) (text : string) (w : world) :
  logger lvl text w =
  (Ok tt,
   {| self := self w; trace := trace w ++ [Log lvl text]; inbox := inbox w |}).
Proof. reflexivity. Qed.

Lemma sends_app (tr1 tr2 : list event) :
  sends (tr1 ++ tr2) = sends tr1 ++ sends tr2.
Proof.
  induction tr1 as [|e tr1 IH]; simpl; auto.
  destruct e; simpl; now rewrite ?IH.
Qed.

Lemma log_reply_run (msg_str : IpcMessage -> string) (o : option IpcMessage)
    (w : world) :
  exists logs,
    log_reply msg_str o w =
    (Ok tt, {| self := self w; trace := trace w ++ logs; inbox := inbox w |}) /\
    sends logs = [].
Proof.
  destruct o as [r|]; simpl.
  - eexists. split; reflexivity.
  - exists []. rewrite app_nil_r. now destruct w.
Qed.

Lemma after_ids_msg_id (replies : list (option IpcMessage)) (n : nat) :
  _msg_id (self (after_ids n (init replies))) = Z.of_nat n mod MESSAGE_ID_MAX.
Proof.
  induction n as [|n IH].
  - reflexivity.
  - cbn [after_ids]. rewrite next_msg_id_run. cbn [snd self _msg_id set_msg_id].
    rewrite IH. unfold next_id.
    rewrite Z.add_mod_idemp_l by (unfold MESSAGE_ID_MAX; lia).
    f_equal. lia.
Qed.

(** C6.  The message id counter starts at 0; a call of the generator returns
    (counter + 1) mod 2^32 and stores it; from a fresh client the call
    number n + 1 returns (n + 1) mod 2^32, so the ids run 1, 2, ...,
    2^32 - 1, 0, 1, ...; and two calls less than 2^32 calls apart return
    different ids. *)
Theorem msg_id_sequence :
  _msg_id init_client = 0 /\
  (forall w,
     fst (_next_msg_id w) = Ok ((_msg_id (self w) + 1) mod 2 ^ 32) /\
     _msg_id (self (snd (_next_msg_id w))) = (_msg_id (self w) + 1) mod 2 ^ 32) /\
  (forall replies n,
     nth_id n (init replies) = Ok (Z.of_nat (S n) mod 2 ^ 32)) /\
  (forall replies i j,
     (i < j)%nat -> Z.of_nat j < Z.of_nat i + 2 ^ 32 ->
     nth_id i (init replies) <> nth_id j (init replies)).
Proof.
  assert (forall replies n,
            nth_id n (init replies) = Ok (Z.of_nat (S n) mod 2 ^ 32)) as Hn.
  { intros replies n. unfold nth_id. rewrite next_msg_id_run. cbn [fst].
    rewrite after_ids_msg_id. unfold next_id, MESSAGE_ID_MAX.
    rewrite Z.add_mod_idemp_l by lia. do 2 f_equal. lia. }
  split; [reflexivity|]. split; [|split; [exact Hn|]].
  - intros w. rewrite next_msg_id_run. split; reflexivity.
  - intros replies i j Hij Hj. rewrite !Hn. intros H.
    assert (Z.of_nat (S i) mod 2 ^ 32 = Z.of_nat (S j) mod 2 ^ 32) as H'
      by congruence.
    assert ((Z.of_nat (S j) - Z.of_nat (S i)) mod 2 ^ 32 = 0) as D.
    { rewrite Zminus_mod, H', Z.sub_diag. reflexivity. }
    rewrite Z.mod_small in D by lia. lia.
Qed.

Lemma msg_id_sequence_witness :
  nth_id 0 (init []) <> nth_id 1 (init []).
Proof.
  destruct msg_id_sequence as (_ & _ & _ & H).
  apply (H [] 0%nat 1%nat); [lia|reflexivity].
Defined.

(** C9, as stated, fails: a document whose bytes are not text in the
    file's encoding makes [json.load] raise [UnicodeDecodeError], which is
    not a [JSONDecodeError], so [load_config] does not catch it: the call
    does not return, and the only line logged is the DEBUG one written
    before the document was read; no failure is logged. *)
Lemma load_config_invalid_text_escapes :
  let e :=
    UnicodeDecodeError
      "'utf-8' codec can't decode byte 0xff in position 0: invalid start byte" in
  let r := load_config (Unreadable "defaults.json" e) (init []) in
  fst r = Raise e /\
  fst r <> Ok tt /\
  trace (snd r) =
    [Log DEBUG "Parsing default configuration from file defaults.json"] /\
  (forall text, ~ In (Log ERROR text) (trace (snd r))).
Proof.
  cbv zeta. cbn. split; [reflexivity|]. split; [discriminate|].
  split; [reflexivity|].
  intros text [H|[]]. discriminate.
Qed.

(** C9, amended.  A configuration document that [json.load] rejects with a
    [JSONDecodeError] leaves the receiver tree, the processor tree and the
    plugin chain unchanged; the failure is logged and the call returns
    normally.  A document on which [json.load] raises any other exception
    (text that cannot be decoded, nesting that is too deep, an integer
    literal that is too long) leaves the three unchanged as well, and the
    rest of the client with them, but the exception leaves [load_config]
    and nothing is logged after the opening DEBUG line. *)
Theorem load_config_rejected_document (name : string) (w : world) :
  (forall err : string,
     let r := load_config (Malformed name err) w in
     fst r = Ok tt /\
     fr_config (self (snd r)) = fr_config (self w) /\
     fp_config (self (snd r)) = fp_config (self w) /\
     fp_plugins (self (snd r)) = fp_plugins (self w) /\
     self (snd r) = self w /\
     inbox (snd r) = inbox w /\
     trace (snd r) =
       trace w ++
       [Log DEBUG ("Parsing default configuration from file " ++ name);
        Log ERROR ("Failed to parse configuration file: " ++ err)]) /\
  (forall e : exn,
     let r := load_config (Unreadable name e) w in
     fst r = Raise e /\
     fr_config (self (snd r)) = fr_config (self w) /\
     fp_config (self (snd r)) = fp_config (self w) /\
     fp_plugins (self (snd r)) = fp_plugins (self w) /\
     self (snd r) = self w /\
     inbox (snd r) = inbox w /\
     trace (snd r) =
       trace w ++
       [Log DEBUG ("Parsing default configuration from file " ++ name)]).
Proof.
  split.
  - intros err. cbn. rewrite <- app_assoc. auto 10.
  - intros e. cbn. auto 10.
Qed.

(** C10.  Shutdown sends [shutdown] to the receiver and then [configure]
    with params [{shutdown: true}] to the processor, whatever the outcome of
    the first send (the state [w] holds any pending poll outcomes); these
    are the only two messages sent, and the operation returns normally. *)
Theorem shutdown_sends_both (msg_str : IpcMessage -> string) (w : world) :
  let i1 := next_id (_msg_id (self w)) in
  let i2 := next_id i1 in
  fst (do_shutdown_cmd msg_str w) = Ok tt /\
  sends (trace (snd (do_shutdown_cmd msg_str w))) =
    sends (trace w) ++
    [(fr_ctrl_channel,
      {| msg_type := "cmd"; msg_val := "shutdown"; id := i1; params := None |});
     (fp_ctrl_channel,
      {| msg_type := "cmd"; msg_val := "configure"; id := i2;
         params := Some (JObj [("shutdown", JBool true)]) |})].
Proof.
  cbv zeta. unfold do_shutdown_cmd, _send_config_cmd.
  erewrite bind_ok by apply logger_run.
  erewrite bind_ok by apply send_cmd_run.
  cbn [self trace inbox _msg_id set_msg_id].
  match goal with
  | |- context [bind (log_reply msg_str ?o) _ ?w1] =>
      destruct (log_reply_run msg_str o w1) as (l1 & R1 & S1)
  end.
  erewrite bind_ok by apply R1.
  erewrite bind_ok by apply logger_run.
  erewrite bind_ok by apply send_cmd_run.
  cbn [self trace inbox _msg_id set_msg_id].
  match goal with
  | |- context [log_reply msg_str ?o ?w1] =>
      destruct (log_reply_run msg_str o w1) as (l2 & R2 & S2)
  end.
  rewrite R2. cbn [fst snd self trace inbox params_truthy truthy].
  split; [reflexivity|].
  rewrite !sends_app, S1, S2. simpl. rewrite !app_nil_r, <- app_assoc.
  reflexivity.
Qed.

(** ** The setters as ensure-then-assign runs *)

Ltac bind_cases :=
  unfold bind;
  repeat match goal with
         | |- context [match ?m ?w with pair _ _ => _ end] =>
             destruct (m w) as [[?|?] ?]
         end;
  try reflexivity.

Lemma set_num_frames_eq (n : Z) (w : world) :
  set_num_frames n w =
  write_path processor [] ["hdf"] "frames" (JInt n)
    (snd (modify (set_frames n) w)).
Proof. reflexivity. Qed.

Lemma set_file_path_eq (p : string) (w : world) :
  set_file_path p w =
  write_path processor [] ["hdf"; "file"] "path" (JStr p)
    (snd (modify (set_file_path_attr p) w)).
Proof. reflexivity. Qed.

Lemma set_file_name_eq (f : string) (w : world) :
  set_file_name f w =
  write_path processor [] ["hdf"; "file"] "name" (JStr f)
    (snd (modify (set_file_name_attr f) w)).
Proof. reflexivity. Qed.

Lemma set_bitdepth_eq (b : Z) (w : world) :
  set_bitdepth b w =
  (write_path receiver [] ["decoder_config"] "bitdepth" (JStr (bitdepth_str b)) ;;
   write_path processor [] ["excalibur"] "bitdepth" (JStr (bitdepth_str b)) ;;
   rdtype <- lift (int_getitem rdtype_map b) ;;
   write_path processor [] ["hdf"; "dataset"; "data"] "datatype" (JInt rdtype)) w.
Proof.
  unfold set_bitdepth, bitdepth_str. cbn [write_path app]. bind_cases.
Qed.



Lemma int_getitem_good (b code : Z) :
  In (b, code) [(1, 0); (6, 0); (12, 1); (24, 2)] ->
  int_getitem rdtype_map b = Ok code.
Proof.
  simpl. intros [H|[H|[H|[H|[]]]]]; injection H as <- <-; reflexivity.
Qed.

(** The first half of [set_bitdepth]: the two writes of the string. *)
Lemma bitdepth_strings_run (b : Z) (w : world) :
  sections_ok ["decoder_config"] (fr_config (self w)) = true ->
  sections_ok ["excalibur"] (fp_config (self w)) = true ->
  exists w2,
    (write_path receiver [] ["decoder_config"] "bitdepth" (JStr (bitdepth_str b)) ;;
     write_path processor [] ["excalibur"] "bitdepth" (JStr (bitdepth_str b))) w
    = (Ok tt, w2) /\
    lookup (fr_config (self w2)) ["decoder_config"; "bitdepth"]
      = Some (JStr (bitdepth_str b)) /\
    lookup (fp_config (self w2)) ["excalibur"; "bitdepth"]
      = Some (JStr (bitdepth_str b)) /\
    (forall q, apart q ["excalibur"; "bitdepth"] = true ->
               lookup (fp_config (self w2)) q = lookup (fp_config (self w)) q) /\
    (forall q, sections_ok q (fp_config (self w)) = true ->
               is_prefix ["excalibur"; "bitdepth"] q = false ->
               sections_ok q (fp_config (self w2)) = true).
Proof.
  intros Hr Hp.
  destruct (write_path_run receiver "bitdepth" (JStr (bitdepth_str b))
              ["decoder_config"] w Hr) as (w1 & R1 & T1 & L1 & _ & _).
  assert (fp_config (self w1) = fp_config (self w)) as P1
    by (apply (touches_other receiver processor w w1 T1); discriminate).
  destruct (write_path_run processor "bitdepth" (JStr (bitdepth_str b))
              ["excalibur"] w1) as (w2 & R2 & T2 & L2 & F2 & S2).
  { simpl. now rewrite P1. }
  assert (fr_config (self w2) = fr_config (self w1)) as P2
    by (apply (touches_other processor receiver w1 w2 T2); discriminate).
  exists w2. rewrite (bind_ok _ _ _ _ _ R1), R2, P2.
  simpl in *. rewrite <- P1. auto 10.
Qed.

Lemma set_bitdepth_split (b : Z) (w : world) :
  set_bitdepth b w =
  ((write_path receiver [] ["decoder_config"] "bitdepth" (JStr (bitdepth_str b)) ;;
    write_path processor [] ["excalibur"] "bitdepth" (JStr (bitdepth_str b))) ;;
   rdtype <- lift (int_getitem rdtype_map b) ;;
   write_path processor [] ["hdf"; "dataset"; "data"] "datatype" (JInt rdtype)) w.
Proof. rewrite set_bitdepth_eq. bind_cases. Qed.





(** C8.  For each bitdepth of the table 1 -> 0, 6 -> 0, 12 -> 1, 24 -> 2, on
    trees that are nested mappings, [set_bitdepth] returns having written
    the code to processor.hdf.dataset.data.datatype and the string "<b>-bit"
    to receiver.decoder_config.bitdepth and processor.excalibur.bitdepth;
    on a fresh client, [set_bitdepth(12)] leaves excalibur.bitdepth = "12-bit"
    and hdf.dataset.data.datatype = 1 in the processor tree. *)
Theorem set_bitdepth_table :
  (forall (b code : Z) (w : world),
     In (b, code) [(1, 0); (6, 0); (12, 1); (24, 2)] ->
     sections_ok ["decoder_config"] (fr_config (self w)) = true ->
     sections_ok ["excalibur"] (fp_config (self w)) = true ->
     sections_ok ["hdf"; "dataset"; "data"] (fp_config (self w)) = true ->
     let w' := snd (set_bitdepth b w) in
     fst (set_bitdepth b w) = Ok tt /\
     lookup (fp_config (self w')) ["hdf"; "dataset"; "data"; "datatype"]
       = Some (JInt code) /\
     lookup (fr_config (self w')) ["decoder_config"; "bitdepth"]
       = Some (JStr (format_d b ++ "-bit")) /\
     lookup (fp_config (self w')) ["excalibur"; "bitdepth"]
       = Some (JStr (format_d b ++ "-bit"))) /\
  (forall replies,
     let w' := snd (set_bitdepth 12 (init replies)) in
     lookup (fp_config (self w')) ["excalibur"; "bitdepth"]
       = Some (JStr "12-bit") /\
     lookup (fp_config (self w')) ["hdf"; "dataset"; "data"; "datatype"]
       = Some (JInt 1)).
Proof.
  split; [|intros replies; split; reflexivity].
  intros b code w Hb Hr Hp Hh.
  destruct (bitdepth_strings_run b w Hr Hp) as (w2 & R & L1 & L2 & _ & S2).
  cbv zeta. rewrite set_bitdepth_split, (bind_ok _ _ _ _ _ R).
  rewrite (bind_ok (lift (int_getitem rdtype_map b)) _ w2 w2 code)
    by (unfold lift; now rewrite (int_getitem_good b code Hb)).
  destruct (write_path_run processor "datatype" (JInt code)
              ["hdf"; "dataset"; "data"] w2) as (w3 & R3 & T3 & L3 & F3 & _).
  { apply S2; auto. }
  rewrite R3. cbn [fst snd]. split; [reflexivity|]. split; [exact L3|].
  split.
  - pose proof (touches_other processor receiver w2 w3 T3) as P3.
    simpl in P3. rewrite P3 by discriminate. exact L1.
  - simpl in F3. rewrite F3 by reflexivity. exact L2.
Qed.

Lemma set_bitdepth_table_witness :
  let w' := snd (set_bitdepth 24 (init [])) in
  fst (set_bitdepth 24 (init [])) = Ok tt /\
  lookup (fp_config (self w')) ["hdf"; "dataset"; "data"; "datatype"]
    = Some (JInt 2) /\
  lookup (fr_config (self w')) ["decoder_config"; "bitdepth"]
    = Some (JStr "24-bit") /\
  lookup (fp_config (self w')) ["excalibur"; "bitdepth"]
    = Some (JStr "24-bit").
Proof.
  apply (proj1 set_bitdepth_table 24 2 (init [])).
  - simpl. auto.
  - reflexivity.
  - reflexivity.
  - reflexivity.
Defined.

(** ** Sections and siblings *)








Lemma call_all_cons (s : setter) (ss : list setter) (w : world) :
  call_all (s :: ss) w =
  match fst (call s w) with
  | Ok _ => call_all ss (snd (call s w))
  | Raise e => (Raise e, snd (call s w))
  end.
Proof. unfold call_all. simpl. now rewrite bind_run. Qed.


Lemma ensure_present (t : tree) (p : list string) (key : string) (d : dict)
    (x : json) (w : world) :
  getpath (config_of t (self w)) p = Ok (JObj d) ->
  dict_get key d = Some x ->
  _ensure_config_section t p key w = (Ok tt, w).
Proof.
  intros Hn Hd. unfold _ensure_config_section, bind, gets, lift.
  rewrite Hn. simpl. now rewrite Hd.
Qed.




(** ** Starting file writing *)

Lemma sections_ok_prefix (p q : list string) (root : json) :
  sections_ok (p ++ q) root = true -> sections_ok p root = true.
Proof.
  revert root. induction p as [|a p IH]; intros root H.
  - simpl in H. destruct q, root; simpl in *; congruence.
  - destruct root; try discriminate. simpl in *.
    destruct (dict_get a d); auto.
Qed.

Lemma lookup_parent (root : json) (p : list string) (k : string) (x : json) :
  lookup root (p ++ [k]) = Some x -> exists d, lookup root p = Some (JObj d).
Proof.
  rewrite lookup_app. destruct (lookup root p) as [node|]; [|discriminate].
  rewrite lookup_cons. destruct node; try discriminate. eauto.
Qed.

Lemma sends_logs (logs : list event) :
  forallb is_log logs = true -> sends logs = [].
Proof.
  induction logs as [|e logs IH]; simpl; auto.
  destruct e; simpl; try discriminate. auto.
Qed.

Lemma touches_sends (t : tree) (w w' : world) :
  touches t w w' -> sends (trace w') = sends (trace w).
Proof.
  intros (_ & _ & logs & -> & L).
  now rewrite sends_app, (sends_logs logs L), app_nil_r.
Qed.

Lemma touches_inbox (t : tree) (w w' : world) :
  touches t w w' -> inbox w' = inbox w.
Proof. now intros (_ & I & _). Qed.

(** An assignment into a section that is there. *)
Lemma assign_ok_run (t : tree) (p : list string) (k : string) (v : json)
    (w : world) (d : dict) :
  lookup (config_of t (self w)) p = Some (JObj d) ->
  exists w',
    assign t p k v w = (Ok tt, w') /\
    touches t w w' /\
    lookup (config_of t (self w')) (p ++ [k]) = Some v /\
    (forall q, apart q (p ++ [k]) = true ->
               lookup (config_of t (self w')) q = lookup (config_of t (self w)) q).
Proof.
  intros Hn. apply getpath_lookup in Hn.
  destruct (write_at_ok p k v _ _ Hn) as [root' Hw].
  pose proof (assign_run t p k v w) as R. rewrite Hw in R.
  destruct R as (w' & R & T & C). exists w'. rewrite C.
  split; auto. split; auto. split.
  - eapply write_at_leaf; eauto.
  - intros q Hq. eapply write_at_frame; eauto.
Qed.

(** A session attribute is stored and its leaf written, on a processor tree
    that is a nested mapping along the sections. *)
Lemma session_write_run (g : client -> client) (todo : list string)
    (k : string) (v : json) (w : world) :
  (forall c, fp_config (g c) = fp_config c) ->
  sections_ok todo (fp_config (self w)) = true ->
  exists w',
    write_path processor [] todo k v (snd (modify g w)) = (Ok tt, w') /\
    self w' = set_fp_config (fp_config (self w')) (g (self w)) /\
    inbox w' = inbox w /\
    sends (trace w') = sends (trace w) /\
    lookup (fp_config (self w')) (todo ++ [k]) = Some v /\
    (forall q, apart q (todo ++ [k]) = true ->
               lookup (fp_config (self w')) q = lookup (fp_config (self w)) q) /\
    (forall q, sections_ok q (fp_config (self w)) = true ->
               is_prefix (todo ++ [k]) q = false ->
               sections_ok q (fp_config (self w')) = true).
Proof.
  intros Hg Hs.
  destruct (write_path_run processor k v todo (snd (modify g w)))
    as (w' & R & T & L & F & S).
  { simpl. now rewrite Hg. }
  exists w'. simpl in *. rewrite Hg in F, S.
  split; auto. split; [apply T|].
  split; [apply (touches_inbox _ _ _ T)|].
  split; [apply (touches_sends _ _ _ T)|]. auto.
Qed.

(** What [set_file_writing] does on a processor tree that is a nested
    mapping along hdf.file. *)
Lemma set_file_writing_run (enable : bool) (w : world) :
  sections_ok ["hdf"; "file"] (fp_config (self w)) = true ->
  exists w' hdf,
    set_file_writing enable w = (Ok tt, w') /\
    sends (trace w') =
      sends (trace w) ++
      [(fp_ctrl_channel,
        {| msg_type := "cmd"; msg_val := "configure";
           id := next_id (_msg_id (self w));
           params := Some (JObj [("hdf", hdf)]) |})] /\
    getitem (fp_config (self w')) "hdf" = Ok hdf /\
    lookup hdf ["frames"] = Some (JInt (frames (self w))) /\
    lookup hdf ["file"; "path"] = Some (JStr (file_path (self w))) /\
    lookup hdf ["file"; "name"] = Some (JStr (file_name (self w))) /\
    lookup hdf ["write"] = Some (JBool enable).
Proof.
  intros J. unfold set_file_writing.
  (* set_file_name *)
  rewrite (bind_ok (gets file_name) _ w w _ eq_refl), bind_run, set_file_name_eq.
  destruct (session_write_run (set_file_name_attr (file_name (self w)))
              ["hdf"; "file"] "name" (JStr (file_name (self w))) w)
    as (w1 & R1 & S1 & I1 & T1 & LN1 & _ & K1); auto.
  rewrite R1. cbn [fst snd].
  assert (sections_ok ["hdf"; "file"] (fp_config (self w1)) = true) as J1
    by (apply K1; auto).
  (* set_file_path *)
  rewrite (bind_ok (gets file_path) _ w1 w1 _ eq_refl), bind_run, set_file_path_eq.
  destruct (session_write_run (set_file_path_attr (file_path (self w1)))
              ["hdf"; "file"] "path" (JStr (file_path (self w1))) w1)
    as (w2 & R2 & S2 & I2 & T2 & LP2 & F2 & K2); auto.
  rewrite R2. cbn [fst snd].
  assert (sections_ok ["hdf"; "file"] (fp_config (self w2)) = true) as J2
    by (apply K2; auto).
  (* set_num_frames *)
  rewrite (bind_ok (gets frames) _ w2 w2 _ eq_refl), bind_run, set_num_frames_eq.
  destruct (session_write_run (set_frames (frames (self w2)))
              ["hdf"] "frames" (JInt (frames (self w2))) w2)
    as (w3 & R3 & S3 & I3 & T3 & LF3 & F3 & _); auto.
  { apply (sections_ok_prefix ["hdf"] ["file"]). exact J2. }
  rewrite R3. cbn [fst snd].
  (* the two assignments *)
  rewrite (bind_ok (gets frames) _ w3 w3 _ eq_refl).
  destruct (lookup_parent _ ["hdf"] "frames" _ LF3) as [d3 P3].
  destruct (assign_ok_run processor ["hdf"] "frames" (JInt (frames (self w3)))
              w3 d3 P3) as (w4 & R4 & T4 & LF4 & F4).
  rewrite (bind_ok _ _ _ _ _ R4).
  destruct (lookup_parent _ ["hdf"] "frames" _ LF4) as [d4 P4].
  destruct (assign_ok_run processor ["hdf"] "write" (JBool enable)
              w4 d4 P4) as (w5 & R5 & T5 & LW5 & F5).
  rewrite (bind_ok _ _ _ _ _ R5).
  (* the message *)
  erewrite bind_ok by apply logger_run.
  match goal with
  | |- context [bind (gets fp_config) _ ?w6] =>
      rewrite (bind_ok (gets fp_config) _ w6 w6 _ eq_refl)
  end.
  cbn [self trace inbox].
  simpl config_of in *. simpl app in *.
  assert (forall q, lookup (fp_config (self w5)) ("hdf" :: q) <> None ->
            exists hdf, getitem (fp_config (self w5)) "hdf" = Ok hdf /\
                        forall q', lookup (fp_config (self w5)) ("hdf" :: q')
                                   = lookup hdf q') as G.
  { intros q Hq. rewrite lookup_cons in Hq.
    destruct (fp_config (self w5)) as [| | | | | |d5]; try congruence.
    simpl. destruct (dict_get "hdf" d5) as [h|] eqn:Eh; [|congruence].
    exists h. split; auto. intros q'. now rewrite lookup_cons, Eh. }
  destruct (G ["write"]) as (hdf & Gh & Gl); [congruence|].
  unfold lift at 1. rewrite bind_run. cbn [fst snd]. rewrite Gh.
  unfold _send_config_cmd. erewrite bind_ok by apply send_cmd_run.
  unfold ret. cbn [self trace inbox params_truthy truthy].
  eexists. exists hdf. split; [reflexivity|]. cbn [self trace inbox].
  assert (frames (self w3) = frames (self w) /\
          file_path (self w1) = file_path (self w) /\
          _msg_id (self w5) = _msg_id (self w)) as (Efr & Epa & Eid).
  { destruct (touches_session _ _ _ T5) as (_ & _ & _ & _ & M5).
    destruct (touches_session _ _ _ T4) as (_ & _ & _ & _ & M4).
    rewrite M5, M4, S3, S2, S1. auto. }
  assert (file_path (self w2) = file_path (self w1)) as Epa2
    by (rewrite S2; reflexivity).
  assert (frames (self w2) = frames (self w)) as Efr2
    by (rewrite S2, S1; reflexivity).
  split.
  { rewrite sends_app, sends_app. simpl.
    rewrite (touches_sends _ _ _ T5), (touches_sends _ _ _ T4), T3, T2, T1.
    rewrite app_nil_r, Eid. reflexivity. }
  split; [exact Gh|].
  rewrite <- !Gl. rewrite LW5.
  rewrite (F5 ["hdf"; "frames"]), LF4 by reflexivity.
  rewrite (F5 ["hdf"; "file"; "path"]), (F4 ["hdf"; "file"; "path"]),
    (F3 ["hdf"; "file"; "path"]), LP2 by reflexivity.
  rewrite (F5 ["hdf"; "file"; "name"]), (F4 ["hdf"; "file"; "name"]),
    (F3 ["hdf"; "file"; "name"]), (F2 ["hdf"; "file"; "name"]), LN1
    by reflexivity.
  rewrite Efr, Epa. auto.
Qed.

(** Calls of the three session setters on such a tree all return, keep the
    tree such, and leave the last value given for each attribute. *)
Lemma session_setters_run (ss : list setter) (w : world) :
  forallb is_session_setter ss = true ->
  sections_ok ["hdf"; "file"] (fp_config (self w)) = true ->
  let w' := snd (call_all ss w) in
  fst (call_all ss w) = Ok tt /\
  sections_ok ["hdf"; "file"] (fp_config (self w')) = true /\
  frames (self w') = latest_frames ss (frames (self w)) /\
  file_path (self w') = latest_file_path ss (file_path (self w)) /\
  file_name (self w') = latest_file_name ss (file_name (self w)) /\
  _msg_id (self w') = _msg_id (self w) /\
  sends (trace w') = sends (trace w).
Proof.
  cbv zeta. revert w. induction ss as [|s ss IH]; intros w Hss J.
  - simpl. auto 10.
  - simpl in Hss. apply andb_true_iff in Hss. destruct Hss as [Hs Hss].
    rewrite call_all_cons.
    assert (exists w1,
              call s w = (Ok tt, w1) /\
              sections_ok ["hdf"; "file"] (fp_config (self w1)) = true /\
              latest_frames (s :: ss) (frames (self w))
                = latest_frames ss (frames (self w1)) /\
              latest_file_path (s :: ss) (file_path (self w))
                = latest_file_path ss (file_path (self w1)) /\
              latest_file_name (s :: ss) (file_name (self w))
                = latest_file_name ss (file_name (self w1)) /\
              _msg_id (self w1) = _msg_id (self w) /\
              sends (trace w1) = sends (trace w)) as (w1 & R & J1 & A & B & C & D & E).
    { destruct s as [n|p|f|b]; [| | |discriminate]; simpl call.
      - rewrite set_num_frames_eq.
        destruct (session_write_run (set_frames n) ["hdf"] "frames" (JInt n) w)
          as (w1 & R1 & S1 & _ & T1 & _ & _ & K1); auto.
        { apply (sections_ok_prefix ["hdf"] ["file"]). exact J. }
        exists w1. split; [exact R1|]. split; [apply K1; auto|].
        rewrite S1. cbn. auto 10.
      - rewrite set_file_path_eq.
        destruct (session_write_run (set_file_path_attr p) ["hdf"; "file"]
                    "path" (JStr p) w)
          as (w1 & R1 & S1 & _ & T1 & _ & _ & K1); auto.
        exists w1. split; [exact R1|]. split; [apply K1; auto|].
        rewrite S1. cbn. auto 10.
      - rewrite set_file_name_eq.
        destruct (session_write_run (set_file_name_attr f) ["hdf"; "file"]
                    "name" (JStr f) w)
          as (w1 & R1 & S1 & _ & T1 & _ & _ & K1); auto.
        exists w1. split; [exact R1|]. split; [apply K1; auto|].
        rewrite S1. cbn. auto 10. }
    rewrite R. cbn [fst snd].
    destruct (IH w1 Hss J1) as (H1 & H2 & H3 & H4 & H5 & H6 & H7).
    rewrite A, B, C. repeat split; congruence.
Qed.

(** C3.  After any sequence of [set_num_frames], [set_file_path] and
    [set_file_name] calls on a fresh client, [set_file_writing(True)] sends
    the processor one [configure] command whose params are exactly the key
    [hdf] with the hdf subtree of the processor tree, and in that subtree
    frames, file.path and file.name hold the last values set (the defaults
    where none was set) and write holds true. *)
Theorem set_file_writing_payload (ss : list setter)
    (replies : list (option IpcMessage)) :
  forallb is_session_setter ss = true ->
  let w1 := snd (call_all ss (init replies)) in
  let w2 := snd (set_file_writing true w1) in
  fst (call_all ss (init replies)) = Ok tt /\
  fst (set_file_writing true w1) = Ok tt /\
  exists hdf,
    sends (trace w2) =
      [(fp_ctrl_channel,
        {| msg_type := "cmd"; msg_val := "configure"; id := 1;
           params := Some (JObj [("hdf", hdf)]) |})] /\
    getitem (fp_config (self w2)) "hdf" = Ok hdf /\
    lookup hdf ["frames"] = Some (JInt (latest_frames ss 1)) /\
    lookup hdf ["file"; "path"] = Some (JStr (latest_file_path ss "/tmp")) /\
    lookup hdf ["file"; "name"] = Some (JStr (latest_file_name ss "test.hdf5")) /\
    lookup hdf ["write"] = Some (JBool true).
Proof.
  intros Hss. cbv zeta.
  destruct (session_setters_run ss (init replies) Hss eq_refl)
    as (H1 & J1 & Hf & Hp & Hn & Hi & Hs).
  destruct (set_file_writing_run true _ J1)
    as (w2 & hdf & R & S & G & Lf & Lp & Ln & Lw).
  rewrite R. cbn [fst snd]. split; auto. split; auto.
  exists hdf. rewrite S, Hs, Hi, Lf, Lp, Ln, Lw, Hf, Hp, Hn.
  repeat split; auto.
Qed.

Lemma set_file_writing_payload_witness :
  let ss := [FilePath "/data"; NumFrames 5; FileName "a.h5"; NumFrames 7] in
  let w1 := snd (call_all ss (init [])) in
  let w2 := snd (set_file_writing true w1) in
  fst (call_all ss (init [])) = Ok tt /\
  fst (set_file_writing true w1) = Ok tt /\
  exists hdf,
    sends (trace w2) =
      [(fp_ctrl_channel,
        {| msg_type := "cmd"; msg_val := "configure"; id := 1;
           params := Some (JObj [("hdf", hdf)]) |})] /\
    getitem (fp_config (self w2)) "hdf" = Ok hdf /\
    lookup hdf ["frames"] = Some (JInt 7) /\
    lookup hdf ["file"; "path"] = Some (JStr "/data") /\
    lookup hdf ["file"; "name"] = Some (JStr "a.h5") /\
    lookup hdf ["write"] = Some (JBool true).
Proof.
  apply (set_file_writing_payload
           [FilePath "/data"; NumFrames 5; FileName "a.h5"; NumFrames 7] []).
  reflexivity.
Defined.

(** ** The processor tree as a projection of the session values *)

Lemma projection_leaves (c : client) :
  projection c <->
  forall leaf val, In (leaf, val) (session_leaves c) ->
                   forall x, lookup (fp_config c) leaf = Some x -> x = val.
Proof.
  unfold projection, session_leaves. split.
  - intros (H1 & H2 & H3) leaf val [H|[H|[H|[]]]] x Hx;
      injection H as <- <-; auto.
  - intros H. repeat split; intros v Hv; eapply H; eauto; simpl; auto.
Qed.

(** An ensure-then-assign run on the processor tree keeps the projection
    when each mirrored leaf either is the one assigned, with its session
    value, or parts from it and was right before. *)
Lemma write_path_projection (done todo : list string) (k : string) (v : json)
    (w : world) :
  (forall leaf val,
     In (leaf, val) (session_leaves (self w)) ->
     (leaf = done ++ todo ++ [k] /\ v = val) \/
     (apart leaf (done ++ todo ++ [k]) = true /\
      forall x, lookup (fp_config (self w)) leaf = Some x -> x = val)) ->
  projection (self (snd (write_path processor done todo k v w))).
Proof.
  intros H. apply projection_leaves.
  pose proof (write_path_touches processor k v todo done w) as T.
  destruct (touches_session _ _ _ T) as (Ef & Ep & En & _).
  unfold session_leaves. rewrite Ef, Ep, En.
  intros leaf val Hl x Hx.
  destruct (H leaf val Hl) as [[-> <-]|[Ha Hw]].
  - eapply (write_path_leaf processor); eauto.
  - apply Hw. rewrite <- Hx. symmetry.
    apply (write_path_frame processor k v todo done w leaf Ha).
Qed.

Ltac kept_leaf L :=
  let x := fresh "x" in
  let Hx := fresh "Hx" in
  right; split; [reflexivity|];
  intros x Hx; eapply L; [|exact Hx]; simpl; auto.

Lemma call_projection (s : setter) (w : world) :
  projection (self w) -> projection (self (snd (call s w))).
Proof.
  intros P. pose proof (proj1 (projection_leaves _) P) as L.
  destruct s as [n|p|f|b]; simpl call.
  - rewrite set_num_frames_eq. apply write_path_projection.
    intros leaf val [H|[H|[H|[]]]]; injection H as <- <-;
      first [left; split; reflexivity | kept_leaf L].
  - rewrite set_file_path_eq. apply write_path_projection.
    intros leaf val [H|[H|[H|[]]]]; injection H as <- <-;
      first [left; split; reflexivity | kept_leaf L].
  - rewrite set_file_name_eq. apply write_path_projection.
    intros leaf val [H|[H|[H|[]]]]; injection H as <- <-;
      first [left; split; reflexivity | kept_leaf L].
  - rewrite set_bitdepth_eq. revert P.
    pose (R := fun w w' : world =>
                 projection (self w) -> projection (self w')).
    assert (forall w1, R w1 w1) as Rr by (unfold R; auto).
    assert (forall w1 w2 w3, R w1 w2 -> R w2 w3 -> R w1 w3) as Rt
      by (unfold R; auto).
    assert (forall todo k v,
              (forall leaf val w1, In (leaf, val) (session_leaves (self w1)) ->
                                   apart leaf (todo ++ [k]) = true) ->
              preserves R (write_path processor [] todo k v)) as Wp.
    { intros todo k v Ha w1 P1. apply write_path_projection.
      intros leaf val Hl. right. split; [eapply Ha; eauto|].
      intros x. now apply (proj1 (projection_leaves _) P1). }
    assert (forall leaf val w1,
              In (leaf, val) (session_leaves (self w1)) ->
              In leaf [["hdf"; "frames"]; ["hdf"; "file"; "path"];
                       ["hdf"; "file"; "name"]]) as Hin.
    { intros leaf val w1 [H|[H|[H|[]]]]; injection H as <- _; simpl; auto. }
    change (R w (snd ((write_path receiver [] ["decoder_config"] "bitdepth"
                         (JStr (bitdepth_str b)) ;;
                       write_path processor [] ["excalibur"] "bitdepth"
                         (JStr (bitdepth_str b)) ;;
                       rdtype <- lift (int_getitem rdtype_map b) ;;
                       write_path processor [] ["hdf"; "dataset"; "data"]
                         "datatype" (JInt rdtype)) w))).
    apply (preserves_bind R Rt).
    { intros w1 P1.
      pose proof (write_path_touches receiver "bitdepth"
                    (JStr (bitdepth_str b)) ["decoder_config"] [] w1) as T.
      destruct (touches_session _ _ _ T) as (Ef & Ep & En & _).
      pose proof (touches_other receiver processor _ _ T) as Eo.
      unfold config_of in Eo. unfold projection in *.
      rewrite Ef, Ep, En, Eo by discriminate. exact P1. }
    intros _. apply (preserves_bind R Rt).
    { apply Wp. intros leaf val w1 Hl.
      destruct (Hin leaf val w1 Hl) as [<-|[<-|[<-|[]]]]; reflexivity. }
    intros _. apply (preserves_bind R Rt).
    { apply (preserves_lift R Rr). }
    intros r. apply Wp. intros leaf val w1 Hl.
    destruct (Hin leaf val w1 Hl) as [<-|[<-|[<-|[]]]]; reflexivity.
Qed.

Lemma same_config_projection (w w' : world) :
  same_config w w' -> projection (self w) -> projection (self w').
Proof.
  intros (_ & Ep & _ & Ef & Epa & En). unfold projection.
  now rewrite Ep, Ef, Epa, En.
Qed.

Lemma preserves_weaken {A : Type} (R S : world -> world -> Prop) (m : M A) :
  (forall w w', S w w' -> R w w') -> preserves S m -> preserves R m.
Proof. intros H Hm w. apply H, Hm. Qed.

(** Steps through a command that only sends, logs, prints and sleeps. *)
Ltac same_cfg :=
  repeat first
    [ apply send_cmd_same_config
    | apply logger_same_config
    | apply emit_same_config
    | apply (preserves_ret same_config same_config_refl)
    | apply (preserves_lift same_config same_config_refl)
    | apply (preserves_gets same_config same_config_refl)
    | apply (preserves_when same_config same_config_refl)
    | apply (preserves_for_range same_config same_config_refl same_config_trans)
    | apply (preserves_for_each same_config same_config_refl same_config_trans)
    | apply (preserves_bind same_config same_config_trans)
    | intro ].

Section CommandsKeepConfig.

Variable get_param : IpcMessage -> string -> result json.
Variable msg_str : IpcMessage -> string.

Lemma log_reply_same_config (o : option IpcMessage) :
  preserves same_config (log_reply msg_str o).
Proof. destruct o; simpl; same_cfg. Qed.

Lemma settle_once_same_config : preserves same_config (settle_once get_param).
Proof.
  unfold settle_once, _send_status_cmd.
  apply (preserves_bind same_config same_config_trans); [same_cfg|].
  intros [r|]; same_cfg.
Qed.

Lemma do_config_cmd_same_config : preserves same_config (do_config_cmd get_param).
Proof.
  unfold do_config_cmd, _send_config_cmd.
  pose proof settle_once_same_config as Hs.
  repeat first
    [ apply (preserves_for_range same_config same_config_refl same_config_trans);
      exact Hs
    | apply send_cmd_same_config
    | apply logger_same_config
    | apply (preserves_ret same_config same_config_refl)
    | apply (preserves_lift same_config same_config_refl)
    | apply (preserves_gets same_config same_config_refl)
    | apply (preserves_when same_config same_config_refl)
    | apply (preserves_for_each same_config same_config_refl same_config_trans)
    | apply (preserves_bind same_config same_config_trans)
    | intro ].
Qed.

Lemma do_cmd_same_config (cmd cmd_name : string) :
  preserves same_config (_do_cmd msg_str cmd cmd_name).
Proof.
  unfold _do_cmd.
  apply (preserves_for_each same_config same_config_refl same_config_trans).
  intros nc.
  apply (preserves_bind same_config same_config_trans); [same_cfg|]. intros _.
  apply (preserves_bind same_config same_config_trans); [same_cfg|].
  apply log_reply_same_config.
Qed.

Lemma do_status_cmd_same_config : preserves same_config (do_status_cmd msg_str).
Proof.
  unfold do_status_cmd, _send_status_cmd.
  apply (preserves_for_each same_config same_config_refl same_config_trans).
  intros nc.
  apply (preserves_bind same_config same_config_trans); [same_cfg|]. intros _.
  apply (preserves_bind same_config same_config_trans); [same_cfg|].
  apply log_reply_same_config.
Qed.

Lemma do_shutdown_cmd_same_config :
  preserves same_config (do_shutdown_cmd msg_str).
Proof.
  unfold do_shutdown_cmd, _send_config_cmd.
  apply (preserves_bind same_config same_config_trans); [same_cfg|]. intros _.
  apply (preserves_bind same_config same_config_trans); [same_cfg|]. intros r.
  apply (preserves_bind same_config same_config_trans);
    [apply log_reply_same_config|]. intros _.
  apply (preserves_bind same_config same_config_trans); [same_cfg|]. intros _.
  apply (preserves_bind same_config same_config_trans); [same_cfg|].
  apply log_reply_same_config.
Qed.

End CommandsKeepConfig.


Lemma keeps_projection_refl (w : world) : keeps_projection w w.
Proof. unfold keeps_projection. auto. Qed.

Lemma keeps_projection_trans (w1 w2 w3 : world) :
  keeps_projection w1 w2 -> keeps_projection w2 w3 -> keeps_projection w1 w3.
Proof. unfold keeps_projection. auto. Qed.

Lemma set_file_writing_projection (enable : bool) :
  preserves keeps_projection (set_file_writing enable).
Proof.
  pose proof keeps_projection_refl as Rr.
  pose proof keeps_projection_trans as Rt.
  unfold set_file_writing.
  apply (preserves_bind _ Rt); [apply (preserves_gets _ Rr)|]. intros f.
  apply (preserves_bind _ Rt);
    [intros w; exact (call_projection (FileName f) w)|]. intros _.
  apply (preserves_bind _ Rt); [apply (preserves_gets _ Rr)|]. intros p.
  apply (preserves_bind _ Rt);
    [intros w; exact (call_projection (FilePath p) w)|]. intros _.
  apply (preserves_bind _ Rt); [apply (preserves_gets _ Rr)|]. intros n.
  apply (preserves_bind _ Rt);
    [intros w; exact (call_projection (NumFrames n) w)|]. intros _.
  apply preserves_gets_bind. intros w.
  apply (preserves_bind_at _ Rt).
  { intros P. pose proof (proj1 (projection_leaves _) P) as L.
    change (projection (self (snd (write_path processor ["hdf"] [] "frames"
                                     (JInt (frames (self w))) w)))).
    apply write_path_projection.
    intros leaf val [H|[H|[H|[]]]]; injection H as <- <-;
      first [left; split; reflexivity | kept_leaf L]. }
  intros _. apply (preserves_bind _ Rt).
  { intros w1 P. pose proof (proj1 (projection_leaves _) P) as L.
    change (projection (self (snd (write_path processor ["hdf"] [] "write"
                                     (JBool enable) w1)))).
    apply write_path_projection.
    intros leaf val [H|[H|[H|[]]]]; injection H as <- <-; kept_leaf L. }
  intros _.
  apply (preserves_weaken keeps_projection same_config).
  { intros w1 w2 H. exact (same_config_projection w1 w2 H). }
  unfold _send_config_cmd. same_cfg.
Qed.

Lemma projection_init : projection init_client.
Proof. repeat split; intros v H; discriminate. Qed.

(** C2, as stated, fails: load-defaults installs the processor tree of the
    document as it is, so a document that gives hdf.frames = 5 leaves that
    leaf different from the session's frame count 1. *)
Lemma load_config_breaks_projection :
  projection (self (init [])) /\
  ~ projection
      (self (snd (exec params_lookup msg_val (LoadConfig frames_document)
                    (init [])))).
Proof.
  split; [exact projection_init|].
  intros (H & _). specialize (H (JInt 5) eq_refl). discriminate.
Qed.

(** C2, amended.  The projection holds at start-up, and every operation
    other than load-defaults (each setter, start/stop of file writing, and
    each command that only talks to the endpoints) keeps it, whether the
    operation returns or raises: where the leaves hdf.frames, hdf.file.path
    and hdf.file.name are present in the processor tree they hold the
    session's frame count, file path and file name. *)
Theorem projection_kept (get_param : IpcMessage -> string -> result json)
    (msg_str : IpcMessage -> string) :
  projection init_client /\
  forall (c : command) (w : world),
    is_load_config c = false ->
    projection (self w) ->
    projection (self (snd (exec get_param msg_str c w))).
Proof.
  split; [exact projection_init|].
  intros c w Hc P. destruct c; try discriminate; simpl exec.
  - now apply call_projection.
  - exact (same_config_projection _ _ (do_config_cmd_same_config get_param w) P).
  - exact (set_file_writing_projection enable w P).
  - exact (same_config_projection _ _ (do_status_cmd_same_config msg_str w) P).
  - exact (same_config_projection _ _ (do_cmd_same_config msg_str _ _ w) P).
  - exact (same_config_projection _ _ (do_cmd_same_config msg_str _ _ w) P).
  - exact (same_config_projection _ _ (do_cmd_same_config msg_str _ _ w) P).
  - exact (same_config_projection _ _ (do_shutdown_cmd_same_config msg_str w) P).
Qed.

Lemma projection_kept_witness :
  projection
    (self (snd (exec params_lookup msg_val (SetFileWriting true)
                  (snd (exec params_lookup msg_val (Set_ (NumFrames 3))
                          (init [])))))).
Proof.
  apply (proj2 (projection_kept params_lookup msg_val)); [reflexivity|].
  apply (proj2 (projection_kept params_lookup msg_val)); [reflexivity|].
  apply (proj1 (projection_kept params_lookup msg_val)).
Defined.

(** ** The status polls of push-configuration *)

Lemma status_polls_app (a b : list event) :
  status_polls (a ++ b) = (status_polls a + status_polls b)%nat.
Proof. unfold status_polls. now rewrite filter_app, length_app. Qed.

Lemma pauses_app (a b : list event) :
  pauses (a ++ b) = (pauses a + pauses b)%nat.
Proof. unfold pauses. now rewrite filter_app, length_app. Qed.

Lemma no_poll_no_pause_refl (w : world) : no_poll_no_pause w w.
Proof. exists []. now rewrite app_nil_r. Qed.

Lemma no_poll_no_pause_trans (w1 w2 w3 : world) :
  no_poll_no_pause w1 w2 -> no_poll_no_pause w2 w3 -> no_poll_no_pause w1 w3.
Proof.
  intros (e1 & T1 & S1 & P1) (e2 & T2 & S2 & P2). exists (e1 ++ e2).
  rewrite T2, T1, app_assoc, status_polls_app, pauses_app, S1, S2, P1, P2.
  auto.
Qed.

Lemma logger_quiet (lvl : level) (text : string) :
  preserves no_poll_no_pause (logger lvl text).
Proof. intros w. exists [Log lvl text]. auto. Qed.

Lemma send_config_quiet (ch : channel) (p : json) :
  preserves no_poll_no_pause (_send_config_cmd ch p).
Proof.
  intros w. unfold _send_config_cmd. rewrite send_cmd_run. cbn [snd trace].
  eexists. split; [reflexivity|]. now destruct ch.
Qed.

Lemma take_polls_length (n : nat) (l : list (option IpcMessage)) :
  List.length (take_polls n l) = n.
Proof.
  revert l. induction n as [|n IH]; intros l; simpl; auto.
  destruct l; simpl; now rewrite IH.
Qed.

Section SettlingFacts.

Variable get_param : IpcMessage -> string -> result json.

Lemma settling_status_polls (i : Z) (os : list (option IpcMessage)) :
  status_polls (settling get_param i os) = List.length os.
Proof.
  revert i. induction os as [|o os IH]; intros i; [reflexivity|].
  cbn [settling]. rewrite status_polls_app, IH.
  destruct o as [r|]; unfold poll_events;
    [destruct (get_param r "shared_memory")|]; reflexivity.
Qed.

Lemma settling_pauses (i : Z) (os : list (option IpcMessage)) :
  forallb (readable get_param) os = true ->
  pauses (settling get_param i os) = replies os.
Proof.
  revert i. induction os as [|o os IH]; intros i H; [reflexivity|].
  simpl in H. apply andb_true_iff in H. destruct H as [Ho H].
  cbn [settling]. rewrite pauses_app, (IH _ H).
  destruct o as [r|]; unfold poll_events; simpl in Ho.
  - destruct (get_param r "shared_memory"); [reflexivity|discriminate].
  - reflexivity.
Qed.

Lemma settle_once_run (w : world) :
  let i := next_id (_msg_id (self w)) in
  let sent :=
    trace w ++
    [Send fp_ctrl_channel
       {| msg_type := "cmd"; msg_val := "status"; id := i; params := None |}] in
  settle_once get_param w =
  match hd None (inbox w) with
  | Some r =>
      match get_param r "shared_memory" with
      | Ok v =>
          (Ok tt,
           {| self := set_msg_id i (self w);
              trace := (sent ++ [Print v]) ++ [Sleep 200];
              inbox := tl (inbox w) |})
      | Raise e =>
          (Raise e,
           {| self := set_msg_id i (self w); trace := sent;
              inbox := tl (inbox w) |})
      end
  | None =>
      (Ok tt,
       {| self := set_msg_id i (self w); trace := sent; inbox := tl (inbox w) |})
  end.
Proof.
  cbv zeta. unfold settle_once, _send_status_cmd.
  rewrite (bind_ok _ _ _ _ _ (send_cmd_run fp_ctrl_channel "status" None w)).
  cbn [params_truthy].
  destruct (hd None (inbox w)) as [r|]; [|reflexivity].
  unfold bind, lift, emit.
  destruct (get_param r "shared_memory"); reflexivity.
Qed.

(** The status loop: each iteration sends one request and, when a reply
    came, prints its parameter and pauses. *)
Lemma settle_loop_run (n : nat) (w : world) :
  forallb (readable get_param) (take_polls n (inbox w)) = true ->
  exists w',
    for_range n (settle_once get_param) w = (Ok tt, w') /\
    trace w' =
      trace w ++ settling get_param (_msg_id (self w)) (take_polls n (inbox w)).
Proof.
  revert w. induction n as [|n IH]; intros w H.
  - exists w. simpl. now rewrite app_nil_r.
  - cbn [for_range]. rewrite bind_run, settle_once_run.
    destruct (inbox w) as [|o rest] eqn:Ei; cbn [hd tl];
      cbn [take_polls forallb] in H.
    + cbn [fst snd].
      match goal with
      | |- context [for_range n _ ?w1] =>
          destruct (IH w1) as (w' & R & T); [exact H|]
      end.
      exists w'. split; [exact R|]. rewrite T.
      cbn [self trace inbox _msg_id set_msg_id take_polls settling].
      unfold poll_events. now rewrite <- app_assoc.
    + apply andb_true_iff in H. destruct H as [Ho H].
      destruct o as [r|].
      * simpl in Ho.
        destruct (get_param r "shared_memory") as [v|] eqn:Eg; [|discriminate].
        cbn [fst snd].
        match goal with
        | |- context [for_range n _ ?w1] =>
            destruct (IH w1) as (w' & R & T); [exact H|]
        end.
        exists w'. split; [exact R|]. rewrite T.
        cbn [self trace inbox _msg_id set_msg_id take_polls settling].
        unfold poll_events. rewrite Eg, <- !app_assoc. reflexivity.
      * cbn [fst snd].
        match goal with
        | |- context [for_range n _ ?w1] =>
            destruct (IH w1) as (w' & R & T); [exact H|]
        end.
        exists w'. split; [exact R|]. rewrite T.
        cbn [self trace inbox _msg_id set_msg_id take_polls settling].
        unfold poll_events. now rewrite <- app_assoc.
Qed.

End SettlingFacts.

Ltac quiet :=
  repeat first
    [ apply send_config_quiet
    | apply logger_quiet
    | apply (preserves_ret no_poll_no_pause no_poll_no_pause_refl)
    | apply (preserves_lift no_poll_no_pause no_poll_no_pause_refl)
    | apply (preserves_gets no_poll_no_pause no_poll_no_pause_refl)
    | apply (preserves_when no_poll_no_pause no_poll_no_pause_refl)
    | apply (preserves_for_each no_poll_no_pause no_poll_no_pause_refl
               no_poll_no_pause_trans)
    | apply (preserves_bind no_poll_no_pause no_poll_no_pause_trans)
    | intro ].

Lemma fr_setup_run (fp v : json) (w : world) :
  getitem fp "fr_setup" = Ok v ->
  (logger INFO
     "Sending receiver plugin configuration command to frame processor" ;;
   v <- lift (getitem fp "fr_setup") ;;
   _send_config_cmd fp_ctrl_channel (JObj [("fr_setup", v)]) ;;
   ret tt) w =
  (Ok tt,
   {| self := set_msg_id (next_id (_msg_id (self w))) (self w);
      trace :=
        (trace w ++
         [Log INFO
            "Sending receiver plugin configuration command to frame processor"])
        ++ [Send fp_ctrl_channel
              {| msg_type := "cmd"; msg_val := "configure";
                 id := next_id (_msg_id (self w));
                 params := Some (JObj [("fr_setup", v)]) |}];
      inbox := tl (inbox w) |}).
Proof.
  intros Hv.
  erewrite bind_ok by apply logger_run.
  match goal with
  | |- context [bind (lift _) _ ?w0] =>
      rewrite (bind_ok (lift (getitem fp "fr_setup")) _ w0 w0 v)
        by (unfold lift; now rewrite Hv)
  end.
  unfold _send_config_cmd. erewrite bind_ok by apply send_cmd_run.
  reflexivity.
Qed.

(** The part of [do_config_cmd] that comes before the status loop, on a
    processor tree that is a mapping. *)
Lemma before_polls_run (d : dict) (k : M unit) (w : world) :
  fp_config (self w) = JObj d ->
  exists w1,
    (logger INFO "Sending configuration command to frame receiver" ;;
     fr <- gets fr_config ;;
     _send_config_cmd fr_ctrl_channel fr ;;
     fp <- gets fp_config ;;
     has_setup <- lift (py_in "fr_setup" fp) ;;
     when has_setup
       (logger INFO
          "Sending receiver plugin configuration command to frame processor" ;;
        v <- lift (getitem fp "fr_setup") ;;
        _send_config_cmd fp_ctrl_channel (JObj [("fr_setup", v)]) ;;
        ret tt) ;;
     k) w = k w1 /\
    no_poll_no_pause w w1 /\
    inbox w1 = skipn (sends_before_polls (fp_config (self w))) (inbox w).
Proof.
  intros Hfp.
  erewrite bind_ok by apply logger_run.
  match goal with
  | |- context [bind (gets fr_config) _ ?w0] =>
      rewrite (bind_ok (gets fr_config) _ w0 w0 _ eq_refl)
  end.
  unfold _send_config_cmd at 1. erewrite bind_ok by apply send_cmd_run.
  match goal with
  | |- context [bind (gets fp_config) _ ?w0] =>
      rewrite (bind_ok (gets fp_config) _ w0 w0 _ eq_refl)
  end.
  cbn [self trace inbox fp_config set_msg_id].
  unfold sends_before_polls. rewrite Hfp. cbn [py_in].
  destruct (dict_get "fr_setup" d) as [v|] eqn:Ev.
  - match goal with
    | |- context [bind (lift (Ok true)) _ ?w0] =>
        rewrite (bind_ok (lift (Ok true)) _ w0 w0 true eq_refl)
    end.
    cbn [when].
    erewrite bind_ok by (apply fr_setup_run; simpl; now rewrite Ev).
    eexists. split; [reflexivity|]. cbn [self trace inbox]. split.
    + eexists. rewrite <- !app_assoc. split; [reflexivity|]. split; reflexivity.
    + now destruct (inbox w) as [|? [|? ?]].
  - match goal with
    | |- context [bind (lift (Ok false)) _ ?w0] =>
        rewrite (bind_ok (lift (Ok false)) _ w0 w0 false eq_refl)
    end.
    cbn [when]. rewrite (bind_ok (ret tt) _ _ _ tt eq_refl).
    eexists. split; [reflexivity|]. cbn [self trace inbox]. split.
    + eexists. rewrite <- !app_assoc. split; [reflexivity|]. split; reflexivity.
    + now destruct (inbox w).
Qed.

(** C1, as stated, fails: when every poll times out the ten status requests
    are sent one after the other with no pause after any of them. *)
Lemma do_config_cmd_timeouts_no_pause :
  let tr := trace (snd (do_config_cmd params_lookup (init []))) in
  status_polls tr = 10%nat /\
  pauses tr = 0%nat /\
  pause_after_each_poll false tr = false.
Proof. repeat split. Qed.

(** C1, amended.  On a processor tree that is a mapping, and when every
    reply received to one of the ten status requests carries a
    [shared_memory] parameter that can be read (nothing is asked of the
    answers to the [configure] commands, nor of outcomes that are never
    taken), push-configuration sends exactly ten status requests to the
    processor, in its status loop; the 200 ms pause follows exactly those
    requests that got a reply (after the reply's parameter is printed) and
    no pause follows a request that timed out, so the number of pauses is
    the number of replies among the ten poll outcomes. *)
Theorem settling_polls_pause_on_reply
    (get_param : IpcMessage -> string -> result json) (w : world) (d : dict) :
  fp_config (self w) = JObj d ->
  forallb (readable get_param)
    (take_polls 10
       (skipn (sends_before_polls (fp_config (self w))) (inbox w))) = true ->
  let w' := snd (do_config_cmd get_param w) in
  let polled :=
    take_polls 10 (skipn (sends_before_polls (fp_config (self w))) (inbox w)) in
  (exists pre post i,
     trace w' = trace w ++ pre ++ settling get_param i polled ++ post /\
     status_polls pre = 0%nat /\ pauses pre = 0%nat /\
     status_polls post = 0%nat /\ pauses post = 0%nat) /\
  status_polls (trace w') = (status_polls (trace w) + 10)%nat /\
  pauses (trace w') = (pauses (trace w) + replies polled)%nat.
Proof.
  intros Hfp Hr. cbv zeta.
  assert (exists pre post i,
            trace (snd (do_config_cmd get_param w)) =
              trace w ++ pre ++
              settling get_param i
                (take_polls 10
                   (skipn (sends_before_polls (fp_config (self w))) (inbox w)))
              ++ post /\
            status_polls pre = 0%nat /\ pauses pre = 0%nat /\
            status_polls post = 0%nat /\ pauses post = 0%nat) as S.
  { unfold do_config_cmd.
    match goal with
    | |- context [bind (for_range 10 _) ?k] =>
        destruct (before_polls_run d (bind (for_range 10 (settle_once get_param)) k)
                    w Hfp) as (w1 & -> & (pre & Tp & Sp & Pp) & Ei);
        assert (forall a, preserves no_poll_no_pause (k a)) as Hpost
          by (intros a; unfold _send_config_cmd; quiet)
    end.
    destruct (settle_loop_run get_param 10 w1) as (w2 & R & T).
    { now rewrite Ei. }
    rewrite (bind_ok _ _ _ _ _ R).
    match goal with
    | |- context [snd (?m w2)] =>
        destruct (Hpost tt w2) as (post & Tq & Sq & Pq)
    end.
    exists pre, post, (_msg_id (self w1)).
    rewrite Tq, T, Tp, Ei, <- !app_assoc. auto. }
  split; [exact S|].
  destruct S as (pre & post & i & -> & Sp & Pp & Sq & Pq).
  rewrite !status_polls_app, !pauses_app, Sp, Pp, Sq, Pq.
  rewrite settling_status_polls, take_polls_length, settling_pauses
    by exact Hr.
  split; lia.
Qed.

Lemma settling_polls_pause_on_reply_witness :
  let w' := snd (do_config_cmd params_lookup (init (acked_push 1 1))) in
  forallb (readable params_lookup) (acked_push 1 1) = false /\
  status_polls (trace w') = 10%nat /\ pauses (trace w') = 1%nat.
Proof.
  cbv zeta. split; [reflexivity|].
  apply (settling_polls_pause_on_reply params_lookup
           (init (acked_push 1 1)) []);
    reflexivity.
Defined.

(** ** The run as a sequence of operations *)

Lemma bind_ext {A B : Type} (m m' : M A) (k k' : A -> M B) (w : world) :
  (forall w0, m w0 = m' w0) -> (forall a w0, k a w0 = k' a w0) ->
  bind m k w = bind m' k' w.
Proof.
  intros Hm Hk. unfold bind. rewrite Hm.
  destruct (m' w) as [[a|e] w']; auto.
Qed.

Lemma bind_ret_r (m : M unit) (w : world) : bind m (fun _ => ret tt) w = m w.
Proof. unfold bind, ret. now destruct (m w) as [[[]|e] w']. Qed.

Lemma bind_assoc {A B C : Type} (m : M A) (f : A -> M B) (g : B -> M C)
    (w : world) :
  bind (bind m f) g w = bind m (fun a => bind (f a) g) w.
Proof. unfold bind. now destruct (m w) as [[a|e] w']. Qed.

Lemma for_each_app {A : Type} (l1 l2 : list A) (f : A -> M unit) (w : world) :
  for_each (l1 ++ l2) f w = bind (for_each l1 f) (fun _ => for_each l2 f) w.
Proof.
  revert w. induction l1 as [|x l1 IH]; intros w; simpl.
  - reflexivity.
  - rewrite bind_assoc. apply bind_ext; auto.
Qed.

Lemma for_each_one {A : Type} (x : A) (f : A -> M unit) (w : world) :
  for_each [x] f w = f x w.
Proof. simpl. apply bind_ret_r. Qed.

(** One block of [run] followed by the rest. *)
Lemma block_then {A : Type} (f : A -> M unit) (b rest : M unit)
    (seg segs : list A) (w : world) :
  (forall w0, b w0 = for_each seg f w0) ->
  (forall w0, rest w0 = for_each segs f w0) ->
  bind b (fun _ => rest) w = for_each (seg ++ segs) f w.
Proof.
  intros Hb Hr. rewrite for_each_app. apply bind_ext; auto.
Qed.

Section RunFacts.

Variable identity : channel -> string.
Variable get_param : IpcMessage -> string -> result json.
Variable msg_str : IpcMessage -> string.

Lemma opt_block {A : Type} (o : option A) (m : A -> M unit) (c : A -> command)
    (w : world) :
  (forall x w0, m x w0 = exec get_param msg_str (c x) w0) ->
  match o with
  | Some x => m x
  | None => ret tt
  end w = for_each (opt_list (option_map c o)) (exec get_param msg_str) w.
Proof.
  intros H. destruct o as [x|]; simpl; [|reflexivity].
  now rewrite bind_ret_r.
Qed.

Lemma flag_block (b : bool) (m : M unit) (c : command) (w : world) :
  (forall w0, m w0 = exec get_param msg_str c w0) ->
  when b m w = for_each (flag_list b c) (exec get_param msg_str) w.
Proof.
  intros H. destruct b; simpl; [|reflexivity].
  now rewrite bind_ret_r.
Qed.

Lemma run_unfold (a : args.t) (w : world) :
  run identity get_param msg_str a w =
  (startup identity ;; exec_all get_param msg_str (plan a)) w.
Proof.
  unfold run, startup, exec_all, plan.
  rewrite bind_assoc.
  apply bind_ext; [reflexivity|]. intros _ w1. rewrite bind_assoc.
  apply bind_ext; [reflexivity|]. intros _ w2.
  apply bind_ext; [reflexivity|]. intros _ w3.
  apply block_then;
    [intros w0; now apply (opt_block (args.config_file a) load_config LoadConfig)|].
  intros w4. apply block_then;
    [intros w0;
     now apply (opt_block (given_int (args.frames a)) set_num_frames
                  (fun n => Set_ (NumFrames n)))|].
  intros w5. apply block_then;
    [intros w0;
     now apply (opt_block (given_int (args.bitdepth a)) set_bitdepth
                  (fun b => Set_ (Bitdepth b)))|].
  intros w6. apply block_then;
    [intros w0;
     now apply (opt_block (given_str (args.file_path a)) set_file_path
                  (fun p => Set_ (FilePath p)))|].
  intros w7. apply block_then;
    [intros w0;
     now apply (opt_block (given_str (args.file_name a)) set_file_name
                  (fun f => Set_ (FileName f)))|].
  intros w8. apply block_then; [intros w0; now apply flag_block|].
  intros w9. apply block_then.
  { intros w0. destruct (args.start a); [|destruct (args.stop a)]; simpl;
      rewrite ?bind_ret_r; reflexivity. }
  intros w10. apply block_then; [intros w0; now apply flag_block|].
  intros w11. apply block_then; [intros w0; now apply flag_block|].
  intros w12. apply block_then; [intros w0; now apply flag_block|].
  intros w13. apply block_then; [intros w0; now apply flag_block|].
  intros w14. now apply flag_block.
Qed.

(** X1.  [run] logs its three startup lines and then carries out the
    operations of [plan], in that order, stopping at the first one that
    raises: load-defaults, frames, bitdepth, path, name, push-configuration,
    start or else stop, status, get-configuration, get-version,
    reset-statistics, shutdown; an option that is absent, 0 or the empty
    string is skipped. *)
Theorem run_is_plan (a : args.t) (w : world) :
  run identity get_param msg_str a w =
  (startup identity ;; exec_all get_param msg_str (plan a)) w.
Proof. apply run_unfold. Qed.

End RunFacts.

(** ** Messages, ids and polls in step *)

Lemma logs_only_refl (w : world) : logs_only w w.
Proof. split; [exists []; now rewrite app_nil_r|auto]. Qed.

Lemma logs_only_trans (w1 w2 w3 : world) :
  logs_only w1 w2 -> logs_only w2 w3 -> logs_only w1 w3.
Proof.
  intros ((l1 & T1 & L1) & I1 & M1) ((l2 & T2 & L2) & I2 & M2).
  split; [|split; congruence].
  exists (l1 ++ l2). now rewrite T2, T1, app_assoc, forallb_app, L1, L2.
Qed.

Lemma touches_logs_only (t : tree) (w w' : world) :
  touches t w w' -> logs_only w w'.
Proof.
  intros T. destruct (touches_session _ _ _ T) as (_ & _ & _ & _ & Hm).
  destruct T as (_ & I & L). now split.
Qed.

Lemma modify_logs_only (f : client -> client) :
  (forall c, _msg_id (f c) = _msg_id c) -> preserves logs_only (modify f).
Proof.
  intros H w. split; [exists []; simpl; now rewrite app_nil_r|].
  simpl. auto.
Qed.

Lemma logger_logs_only (lvl : level) (text : string) :
  preserves logs_only (logger lvl text).
Proof. intros w. split; [exists [Log lvl text]|]; simpl; auto. Qed.

Lemma write_path_logs_only (t : tree) (done todo : list string) (k : string)
    (v : json) :
  preserves logs_only (write_path t done todo k v).
Proof.
  intros w. eapply touches_logs_only. apply write_path_touches.
Qed.

Ltac logs :=
  repeat first
    [ apply write_path_logs_only
    | apply logger_logs_only
    | apply modify_logs_only; intros []; reflexivity
    | apply (preserves_ret logs_only logs_only_refl)
    | apply (preserves_lift logs_only logs_only_refl)
    | apply (preserves_gets logs_only logs_only_refl)
    | apply (preserves_when logs_only logs_only_refl)
    | apply (preserves_bind logs_only logs_only_trans)
    | intro ].

Lemma call_logs_only (s : setter) : preserves logs_only (call s).
Proof.
  intros w. destruct s as [n|p|f|b]; simpl call.
  - rewrite set_num_frames_eq.
    apply logs_only_trans with (w2 := snd (modify (set_frames n) w)).
    + apply modify_logs_only. now intros [].
    + apply write_path_logs_only.
  - rewrite set_file_path_eq.
    apply logs_only_trans with (w2 := snd (modify (set_file_path_attr p) w)).
    + apply modify_logs_only. now intros [].
    + apply write_path_logs_only.
  - rewrite set_file_name_eq.
    apply logs_only_trans with (w2 := snd (modify (set_file_name_attr f) w)).
    + apply modify_logs_only. now intros [].
    + apply write_path_logs_only.
  - rewrite set_bitdepth_eq. revert w. logs.
Qed.

Lemma load_config_logs_only (f : document) : preserves logs_only (load_config f).
Proof.
  unfold load_config. destruct f as [name j|name err|name e]; logs.
Qed.

(** X2.  The setters and load-defaults never talk to an endpoint: whether
    they return or raise, they send no message, take no poll outcome and
    leave the message id counter alone; all they add to the trace is log
    lines. *)
Theorem setters_and_load_are_silent :
  (forall (s : setter) (w : world),
     logs_only w (snd (call s w)) /\
     sends (trace (snd (call s w))) = sends (trace w)) /\
  (forall (f : document) (w : world),
     logs_only w (snd (load_config f w)) /\
     sends (trace (snd (load_config f w))) = sends (trace w)).
Proof.
  assert (forall w w', logs_only w w' -> sends (trace w') = sends (trace w)) as S.
  { intros w w' ((l & -> & L) & _).
    now rewrite sends_app, (sends_logs l L), app_nil_r. }
  split.
  - intros s w. pose proof (call_logs_only s w). auto.
  - intros f w. pose proof (load_config_logs_only f w). auto.
Qed.

Lemma id_chain_app (i : Z) (n m : nat) :
  id_chain i (n + m) = id_chain i n ++ id_chain (iter_id n i) m.
Proof.
  revert i. induction n as [|n IH]; intros i; simpl; auto.
  now rewrite IH.
Qed.

Lemma iter_id_add (i : Z) (n m : nat) :
  iter_id (n + m) i = iter_id m (iter_id n i).
Proof. revert i. induction n as [|n IH]; intros i; simpl; auto. Qed.

Lemma lockstep_refl (w : world) : lockstep w w.
Proof. exists []. simpl. now rewrite app_nil_r. Qed.

Lemma lockstep_trans (w1 w2 w3 : world) :
  lockstep w1 w2 -> lockstep w2 w3 -> lockstep w1 w3.
Proof.
  intros (n1 & T1 & C1 & M1 & I1) (n2 & T2 & C2 & M2 & I2).
  exists (n1 ++ n2).
  rewrite sends_app, length_app, map_app, id_chain_app, iter_id_add.
  rewrite T2, T1, app_assoc, C1, C2, M2, M1, I2, I1, skipn_skipn.
  repeat split; auto. f_equal. lia.
Qed.

Lemma logs_only_lockstep (w w' : world) : logs_only w w' -> lockstep w w'.
Proof.
  intros ((l & T & L) & I & Hm). exists l.
  rewrite (sends_logs l L). simpl. auto.
Qed.

Lemma send_cmd_lockstep (ch : channel) (cmd : string) (p : option json) :
  preserves lockstep (_send_cmd ch cmd p).
Proof.
  intros w. rewrite send_cmd_run. cbn [snd]. eexists.
  split; [reflexivity|]. cbn. auto.
Qed.

Lemma emit_lockstep (e : event) :
  sends [e] = [] -> preserves lockstep (emit e).
Proof.
  intros H w. exists [e]. rewrite H. simpl. auto.
Qed.

Ltac lock :=
  repeat first
    [ apply send_cmd_lockstep
    | apply emit_lockstep; reflexivity
    | apply (preserves_ret lockstep lockstep_refl)
    | apply (preserves_lift lockstep lockstep_refl)
    | apply (preserves_gets lockstep lockstep_refl)
    | apply (preserves_when lockstep lockstep_refl)
    | apply (preserves_for_range lockstep lockstep_refl lockstep_trans)
    | apply (preserves_for_each lockstep lockstep_refl lockstep_trans)
    | apply (preserves_bind lockstep lockstep_trans)
    | intro ].

Section LockstepFacts.

Variable identity : channel -> string.
Variable get_param : IpcMessage -> string -> result json.
Variable msg_str : IpcMessage -> string.

Lemma log_reply_lockstep (o : option IpcMessage) :
  preserves lockstep (log_reply msg_str o).
Proof. destruct o; simpl; unfold logger; lock. Qed.

Lemma do_cmd_lockstep (cmd cmd_name : string) :
  preserves lockstep (_do_cmd msg_str cmd cmd_name).
Proof.
  unfold _do_cmd, logger.
  apply (preserves_for_each lockstep lockstep_refl lockstep_trans). intros nc.
  apply (preserves_bind lockstep lockstep_trans); [lock|]. intros _.
  apply (preserves_bind lockstep lockstep_trans); [lock|].
  apply log_reply_lockstep.
Qed.

Lemma call_lockstep (s : setter) : preserves lockstep (call s).
Proof. intros w. apply logs_only_lockstep, call_logs_only. Qed.

Lemma assign_lockstep (t : tree) (p : list string) (k : string) (v : json) :
  preserves lockstep (assign t p k v).
Proof.
  intros w. apply logs_only_lockstep.
  apply (write_path_logs_only t p [] k v w).
Qed.

Lemma exec_lockstep (c : command) : preserves lockstep (exec get_param msg_str c).
Proof.
  destruct c; simpl exec.
  - intros w. apply logs_only_lockstep, load_config_logs_only.
  - apply call_lockstep.
  - unfold do_config_cmd, settle_once, _send_config_cmd, _send_status_cmd, logger.
    repeat first
      [ apply send_cmd_lockstep
      | apply emit_lockstep; reflexivity
      | apply (preserves_ret lockstep lockstep_refl)
      | apply (preserves_lift lockstep lockstep_refl)
      | apply (preserves_gets lockstep lockstep_refl)
      | apply (preserves_when lockstep lockstep_refl)
      | apply (preserves_for_range lockstep lockstep_refl lockstep_trans)
      | apply (preserves_for_each lockstep lockstep_refl lockstep_trans)
      | apply (preserves_bind lockstep lockstep_trans)
      | intros [?|]
      | intro ].
  - unfold set_file_writing, _send_config_cmd, logger.
    repeat first
      [ apply send_cmd_lockstep
      | apply assign_lockstep
      | apply (call_lockstep (FileName _))
      | apply (call_lockstep (FilePath _))
      | apply (call_lockstep (NumFrames _))
      | apply emit_lockstep; reflexivity
      | apply (preserves_ret lockstep lockstep_refl)
      | apply (preserves_lift lockstep lockstep_refl)
      | apply (preserves_gets lockstep lockstep_refl)
      | apply (preserves_bind lockstep lockstep_trans)
      | intro ].
  - unfold do_status_cmd, _send_status_cmd, logger.
    apply (preserves_for_each lockstep lockstep_refl lockstep_trans). intros nc.
    apply (preserves_bind lockstep lockstep_trans); [lock|]. intros _.
    apply (preserves_bind lockstep lockstep_trans); [lock|].
    apply log_reply_lockstep.
  - apply do_cmd_lockstep.
  - apply do_cmd_lockstep.
  - apply do_cmd_lockstep.
  - unfold do_shutdown_cmd, _send_config_cmd, logger.
    apply (preserves_bind lockstep lockstep_trans); [lock|]. intros _.
    apply (preserves_bind lockstep lockstep_trans); [lock|]. intros r.
    apply (preserves_bind lockstep lockstep_trans);
      [apply log_reply_lockstep|]. intros _.
    apply (preserves_bind lockstep lockstep_trans); [lock|]. intros _.
    apply (preserves_bind lockstep lockstep_trans); [lock|].
    apply log_reply_lockstep.
Qed.

(** X3.  Whatever the client is asked to do, and whether it returns or
    raises, the messages it sends carry consecutive ids (each the previous
    plus one modulo 2^32, starting after the counter's value), the counter
    ends on the last id sent, and exactly one poll outcome is taken for each
    message sent: no send without a poll, no poll without a send. *)
Theorem client_is_in_lockstep :
  (forall (c : command) (w : world),
     lockstep w (snd (exec get_param msg_str c w))) /\
  (forall (a : args.t) (w : world),
     lockstep w (snd (run identity get_param msg_str a w))).
Proof.
  split; [intros c w; apply exec_lockstep|].
  intros a w. rewrite run_unfold. revert w.
  apply (preserves_bind lockstep lockstep_trans).
  - unfold startup, logger. lock.
  - intros _. unfold exec_all.
    apply (preserves_for_each lockstep lockstep_refl lockstep_trans).
    apply exec_lockstep.
Qed.

End LockstepFacts.

(** ** The commands that ask both endpoints *)

Section AskBoth.

Variable get_param : IpcMessage -> string -> result json.
Variable msg_str : IpcMessage -> string.

Lemma ask_both_run (text : string * channel -> string) (cmd : string)
    (w : world) :
  let i1 := next_id (_msg_id (self w)) in
  let i2 := next_id i1 in
  let r :=
    for_each channels
      (fun nc =>
         logger INFO (text nc) ;;
         reply <- _send_cmd (snd nc) cmd None ;;
         log_reply msg_str reply) w in
  fst r = Ok tt /\
  sends (trace (snd r)) =
    sends (trace w) ++
    [(fr_ctrl_channel,
      {| msg_type := "cmd"; msg_val := cmd; id := i1; params := None |});
     (fp_ctrl_channel,
      {| msg_type := "cmd"; msg_val := cmd; id := i2; params := None |})].
Proof.
  cbv zeta. unfold channels. cbn [for_each fst snd].
  rewrite bind_assoc. erewrite bind_ok by apply logger_run.
  rewrite bind_assoc. erewrite bind_ok by apply send_cmd_run.
  cbn [self trace inbox _msg_id set_msg_id].
  match goal with
  | |- context [bind (log_reply msg_str ?o) _ ?w1] =>
      destruct (log_reply_run msg_str o w1) as (l1 & R1 & S1)
  end.
  erewrite bind_ok by apply R1.
  rewrite bind_assoc. erewrite bind_ok by apply logger_run.
  rewrite bind_assoc. erewrite bind_ok by apply send_cmd_run.
  cbn [self trace inbox _msg_id set_msg_id].
  match goal with
  | |- context [bind (log_reply msg_str ?o) _ ?w1] =>
      destruct (log_reply_run msg_str o w1) as (l2 & R2 & S2)
  end.
  erewrite bind_ok by apply R2.
  cbn [fst snd ret self trace inbox params_truthy].
  split; [reflexivity|].
  rewrite !sends_app, S1, S2. simpl. rewrite !app_nil_r, <- app_assoc.
  reflexivity.
Qed.

(** X4.  Status, get-configuration, get-version and reset-statistics each
    send their one command, without params, first to the receiver and then
    to the processor, whatever the first endpoint answered; they send
    nothing else and return normally. *)
Theorem query_commands_ask_both (c : command) (name : string) (w : world) :
  In (c, name)
     [(DoStatus, "status"); (DoRequestConfig, "request_configuration");
      (DoRequestVersion, "request_version");
      (DoResetStats, "reset_statistics")] ->
  let i1 := next_id (_msg_id (self w)) in
  let i2 := next_id i1 in
  fst (exec get_param msg_str c w) = Ok tt /\
  sends (trace (snd (exec get_param msg_str c w))) =
    sends (trace w) ++
    [(fr_ctrl_channel,
      {| msg_type := "cmd"; msg_val := name; id := i1; params := None |});
     (fp_ctrl_channel,
      {| msg_type := "cmd"; msg_val := name; id := i2; params := None |})].
Proof.
  intros [H|[H|[H|[H|[]]]]]; injection H as <- <-; cbv zeta; simpl exec.
  - apply (ask_both_run
             (fun nc => ("Sending status request to frame " ++ fst nc)%string)).
  - apply (ask_both_run
             (fun nc => ("Sending " ++ "configuration request"
                         ++ " command to frame " ++ fst nc)%string)).
  - apply (ask_both_run
             (fun nc => ("Sending " ++ "version request"
                         ++ " command to frame " ++ fst nc)%string)).
  - apply (ask_both_run
             (fun nc => ("Sending " ++ "statistics reset"
                         ++ " command to frame " ++ fst nc)%string)).
Qed.

(** X5.  The commands that talk to the endpoints (push-configuration,
    status, get-configuration, get-version, reset-statistics, shutdown)
    never change the client's configuration: both trees, the plugin chain
    and the three session values are the same afterwards, whatever was
    replied and whether the command returned or raised. *)
Theorem endpoint_commands_keep_config (c : command) (w : world) :
  In c [DoConfig; DoStatus; DoRequestConfig; DoRequestVersion; DoResetStats;
        DoShutdown] ->
  same_config w (snd (exec get_param msg_str c w)).
Proof.
  intros [<-|[<-|[<-|[<-|[<-|[<-|[]]]]]]]; simpl exec.
  - apply do_config_cmd_same_config.
  - apply do_status_cmd_same_config.
  - apply do_cmd_same_config.
  - apply do_cmd_same_config.
  - apply do_cmd_same_config.
  - apply do_shutdown_cmd_same_config.
Qed.

End AskBoth.

Lemma query_commands_ask_both_witness :
  sends (trace (snd (exec params_lookup msg_val DoRequestVersion (init [None])))) =
    [(fr_ctrl_channel,
      {| msg_type := "cmd"; msg_val := "request_version"; id := 1;
         params := None |});
     (fp_ctrl_channel,
      {| msg_type := "cmd"; msg_val := "request_version"; id := 2;
         params := None |})].
Proof.
  apply (query_commands_ask_both params_lookup msg_val DoRequestVersion "request_version" (init [None])).
  simpl. auto.
Defined.

Lemma endpoint_commands_keep_config_witness :
  same_config (init [None])
    (snd (exec params_lookup msg_val DoConfig (init [None]))).
Proof.
  apply (endpoint_commands_keep_config params_lookup msg_val DoConfig (init [None])).
  simpl. auto.
Defined.

(** ** Loading defaults *)

(** X6.  Load-defaults of a document that is a JSON object returns
    normally; each of the keys [receiver_default_config],
    [processor_default_config] and [processor_plugins] that the document has
    replaces the receiver tree, the processor tree or the plugin chain
    wholesale, and each key it lacks leaves its target as it was; the
    session values and the message counter are not touched and one debug
    line is logged. *)
Theorem load_config_object (name : string) (d : dict) (w : world) :
  let w' := snd (load_config (Parsed name (JObj d)) w) in
  fst (load_config (Parsed name (JObj d)) w) = Ok tt /\
  fr_config (self w') = default_of d "receiver_default_config" (fr_config (self w)) /\
  fp_config (self w') = default_of d "processor_default_config" (fp_config (self w)) /\
  fp_plugins (self w') = default_of d "processor_plugins" (fp_plugins (self w)) /\
  frames (self w') = frames (self w) /\
  file_path (self w') = file_path (self w) /\
  file_name (self w') = file_name (self w) /\
  _msg_id (self w') = _msg_id (self w) /\
  trace w' =
    trace w ++ [Log DEBUG ("Parsing default configuration from file " ++ name)].
Proof.
  cbv zeta. unfold load_config, default_of, doc_name.
  erewrite bind_ok by apply logger_run.
  unfold bind, lift, when, modify, ret. cbn [py_in getitem].
  destruct (dict_get "receiver_default_config" d);
    destruct (dict_get "processor_default_config" d);
    destruct (dict_get "processor_plugins" d); cbn; auto 10.
Qed.

(** X7.  Load-defaults of a document that parses but is not a JSON object
    changes nothing in the client: it raises [TypeError] (which [load_config]
    does not catch) when the document is null, a boolean or a number, and
    for a string or an array it either raises [TypeError] or returns,
    without assigning anything. *)
Theorem load_config_not_object (name : string) (j : json) (w : world) :
  is_mapping j = false ->
  let r := load_config (Parsed name j) w in
  self (snd r) = self w /\
  (fst r = Ok tt \/ fst r = Raise TypeError) /\
  (py_in "receiver_default_config" j = Raise TypeError ->
   fst r = Raise TypeError).
Proof.
  intros Hj. cbv zeta. unfold load_config, doc_name.
  erewrite bind_ok by apply logger_run.
  unfold bind, lift, when, modify, ret.
  destruct j as [| b | z | f | t | l | d]; try discriminate; cbn [py_in getitem];
    cbn; auto.
  - destruct (is_substring "receiver_default_config" t); cbn; auto.
    destruct (is_substring "processor_default_config" t); cbn; auto.
    destruct (is_substring "processor_plugins" t); cbn; auto.
    repeat split; auto. discriminate.
  - destruct (existsb (is_str "receiver_default_config") l); cbn; auto.
    destruct (existsb (is_str "processor_default_config") l); cbn; auto.
    destruct (existsb (is_str "processor_plugins") l); cbn; auto.
    repeat split; auto. discriminate.
Qed.

Lemma load_config_not_object_witness :
  let r := load_config (Parsed "d.json" (JList [JStr "processor_plugins"]))
             (init []) in
  self (snd r) = self (init []) /\
  (fst r = Ok tt \/ fst r = Raise TypeError) /\
  (py_in "receiver_default_config" (JList [JStr "processor_plugins"])
     = Raise TypeError ->
   fst r = Raise TypeError).
Proof.
  apply (load_config_not_object "d.json" (JList [JStr "processor_plugins"])
           (init [])).
  reflexivity.
Defined.

(** ** Setters on a tree that is not a mapping *)




(** ** Starting and stopping file writing *)

Lemma sent_iff_returned_step {A : Type} (m : M A) (k : A -> M unit) (w : world) :
  logs_only w (snd (m w)) ->
  (forall a w1, sent_iff_returned w1 (k a w1)) ->
  sent_iff_returned w (bind m k w).
Proof.
  intros ((l & T & L) & _) Hk. rewrite bind_run.
  assert (sends (trace (snd (m w))) = sends (trace w)) as S
    by now rewrite T, sends_app, (sends_logs l L), app_nil_r.
  destruct (fst (m w)) as [a|e].
  - specialize (Hk a (snd (m w))). unfold sent_iff_returned in *.
    now rewrite S in Hk.
  - exact S.
Qed.

(** X9.  [set_file_writing] sends its [configure] message as its last
    step: in every state and for both start and stop, if it returns it
    has sent the processor exactly one [configure] message, and if it
    raises (a section of the processor tree was not a mapping) it has sent
    nothing. *)
Theorem file_writing_sends_iff_returns (enable : bool) (w : world) :
  sent_iff_returned w (set_file_writing enable w).
Proof.
  unfold set_file_writing.
  apply sent_iff_returned_step; [apply logs_only_refl|]. intros f w1.
  apply sent_iff_returned_step; [apply (call_logs_only (FileName f))|].
  intros _ w2.
  apply sent_iff_returned_step; [apply logs_only_refl|]. intros p w3.
  apply sent_iff_returned_step; [apply (call_logs_only (FilePath p))|].
  intros _ w4.
  apply sent_iff_returned_step; [apply logs_only_refl|]. intros n w5.
  apply sent_iff_returned_step; [apply (call_logs_only (NumFrames n))|].
  intros _ w6.
  apply sent_iff_returned_step; [apply logs_only_refl|]. intros n' w7.
  apply sent_iff_returned_step;
    [apply (write_path_logs_only processor ["hdf"] [] "frames")|].
  intros _ w8.
  apply sent_iff_returned_step;
    [apply (write_path_logs_only processor ["hdf"] [] "write")|].
  intros _ w9.
  apply sent_iff_returned_step; [apply logger_logs_only|]. intros _ w10.
  apply sent_iff_returned_step; [apply logs_only_refl|]. intros fp w11.
  unfold sent_iff_returned, lift, _send_config_cmd. rewrite bind_run.
  cbn [fst snd].
  destruct (getitem fp "hdf") as [hdf|e]; [|reflexivity].
  erewrite bind_ok by apply send_cmd_run. cbn [fst snd ret trace].
  eexists. rewrite sends_app. split; reflexivity.
Qed.

(** ** The messages of push-configuration *)

Lemma wire_sends_app (a b : list event) :
  map wire (sends (a ++ b)) = map wire (sends a) ++ map wire (sends b).
Proof. now rewrite sends_app, map_app. Qed.

(** The part of [do_config_cmd] before the status loop, with what it sends. *)
Lemma before_polls_wire (d : dict) (k : M unit) (w : world) :
  fp_config (self w) = JObj d ->
  exists w1,
    (logger INFO "Sending configuration command to frame receiver" ;;
     fr <- gets fr_config ;;
     _send_config_cmd fr_ctrl_channel fr ;;
     fp <- gets fp_config ;;
     has_setup <- lift (py_in "fr_setup" fp) ;;
     when has_setup
       (logger INFO
          "Sending receiver plugin configuration command to frame processor" ;;
        v <- lift (getitem fp "fr_setup") ;;
        _send_config_cmd fp_ctrl_channel (JObj [("fr_setup", v)]) ;;
        ret tt) ;;
     k) w = k w1 /\
    map wire (sends (trace w1)) =
      map wire (sends (trace w))
      ++ push_head (fr_config (self w)) (fp_config (self w)) /\
    same_config w w1 /\
    inbox w1 = skipn (sends_before_polls (fp_config (self w))) (inbox w).
Proof.
  intros Hfp.
  erewrite bind_ok by apply logger_run.
  match goal with
  | |- context [bind (gets fr_config) _ ?w0] =>
      rewrite (bind_ok (gets fr_config) _ w0 w0 _ eq_refl)
  end.
  unfold _send_config_cmd at 1. erewrite bind_ok by apply send_cmd_run.
  match goal with
  | |- context [bind (gets fp_config) _ ?w0] =>
      rewrite (bind_ok (gets fp_config) _ w0 w0 _ eq_refl)
  end.
  cbn [self trace inbox fp_config set_msg_id].
  unfold sends_before_polls, push_head. rewrite Hfp. cbn [py_in].
  destruct (dict_get "fr_setup" d) as [v|] eqn:Ev.
  - match goal with
    | |- context [bind (lift (Ok true)) _ ?w0] =>
        rewrite (bind_ok (lift (Ok true)) _ w0 w0 true eq_refl)
    end.
    cbn [when].
    erewrite bind_ok by (apply fr_setup_run; simpl; now rewrite Ev).
    eexists. split; [reflexivity|]. cbn [self trace inbox]. split; [|split].
    + cbn [getitem]. rewrite Ev, !wire_sends_app. cbn.
      now rewrite !app_nil_r, <- !app_assoc.
    + unfold same_config. cbn. rewrite Hfp. auto 10.
    + now destruct (inbox w) as [|? [|? ?]].
  - match goal with
    | |- context [bind (lift (Ok false)) _ ?w0] =>
        rewrite (bind_ok (lift (Ok false)) _ w0 w0 false eq_refl)
    end.
    cbn [when]. rewrite (bind_ok (ret tt) _ _ _ tt eq_refl).
    eexists. split; [reflexivity|]. cbn [self trace inbox]. split; [|split].
    + cbn [getitem]. rewrite Ev, !wire_sends_app. cbn. now rewrite !app_nil_r.
    + unfold same_config. cbn. rewrite Hfp. auto 10.
    + now destruct (inbox w).
Qed.

Lemma settling_wire (get_param : IpcMessage -> string -> result json) (i : Z)
    (os : list (option IpcMessage)) :
  map wire (sends (settling get_param i os)) =
  repeat (fp_ctrl_channel, "status", None) (List.length os).
Proof.
  revert i. induction os as [|o os IH]; intros i; [reflexivity|].
  cbn [settling]. rewrite wire_sends_app, IH.
  destruct o as [r|]; unfold poll_events;
    [destruct (get_param r "shared_memory")|]; reflexivity.
Qed.

(** The plugin chain: one [configure] per fragment, in order. *)
Lemma plugins_run (ps : list json) (w : world) :
  exists w',
    for_each ps
      (fun plugin => _send_config_cmd fp_ctrl_channel plugin ;; ret tt) w
    = (Ok tt, w') /\
    map wire (sends (trace w')) =
      map wire (sends (trace w))
      ++ map (fun p => (fp_ctrl_channel, "configure", attached p)) ps /\
    same_config w w'.
Proof.
  revert w. induction ps as [|p ps IH]; intros w.
  - exists w. simpl. rewrite app_nil_r. auto.
  - cbn [for_each]. unfold _send_config_cmd at 1.
    rewrite bind_assoc. erewrite bind_ok by apply send_cmd_run.
    rewrite (bind_ok (ret tt) _ _ _ tt eq_refl).
    match goal with
    | |- context [for_each ps _ ?w1] => destruct (IH w1) as (w' & R & S & C)
    end.
    exists w'. split; [exact R|]. split.
    + rewrite S. cbn [trace]. rewrite wire_sends_app. cbn.
      now rewrite <- app_assoc.
    + eapply same_config_trans; [|exact C]. unfold same_config. cbn. auto 10.
Qed.

Section PushFacts.

Variable get_param : IpcMessage -> string -> result json.

(** X10.  Push-configuration on a processor tree that is a mapping and a
    plugin chain that is a list, when every reply received to one of the
    ten status requests carries a [shared_memory] parameter that can be
    read (nothing is asked of the other poll outcomes), returns having
    sent, in this order: [configure]
    with the receiver tree to the receiver; [configure] with
    [{fr_setup: value}] to the processor if the processor tree has the key
    [fr_setup]; ten [status] requests to the processor; one [configure] per
    plugin fragment, in list order; [configure] with the whole processor
    tree.  A tree or fragment that is empty is sent without params. *)
Theorem push_configuration_messages (w : world) (d : dict) (ps : list json) :
  fp_config (self w) = JObj d ->
  fp_plugins (self w) = JList ps ->
  forallb (readable get_param)
    (take_polls 10
       (skipn (sends_before_polls (fp_config (self w))) (inbox w))) = true ->
  fst (do_config_cmd get_param w) = Ok tt /\
  map wire (sends (trace (snd (do_config_cmd get_param w)))) =
    map wire (sends (trace w))
    ++ push_wire (fr_config (self w)) (fp_config (self w)) ps.
Proof.
  intros Hfp Hps Hr. unfold do_config_cmd.
  match goal with
  | |- context [bind (for_range 10 _) ?k] =>
      destruct (before_polls_wire d (bind (for_range 10 (settle_once get_param)) k)
                  w Hfp) as (w1 & -> & S1 & C1 & Ei)
  end.
  destruct (settle_loop_run get_param 10 w1) as (w2 & R & T).
  { now rewrite Ei. }
  assert (same_config w1 w2) as C2.
  { pose proof (preserves_for_range same_config same_config_refl
                  same_config_trans 10 _
                  (settle_once_same_config get_param) w1) as P.
    now rewrite R in P. }
  pose proof (same_config_trans _ _ _ C1 C2) as C.
  destruct C as (_ & Cfp & Cpl & _).
  rewrite (bind_ok _ _ _ _ _ R).
  rewrite (bind_ok (gets fp_plugins) _ w2 w2 _ eq_refl), Cpl, Hps.
  rewrite (bind_ok (lift (py_len (JList ps))) _ w2 w2 _ eq_refl).
  assert (exists w3,
            when (negb (Z.of_nat (List.length ps) =? 0))
              (logger INFO
                 ("Sending " ++ format_d (Z.of_nat (List.length ps))
                  ++ " plugin chain configuration commands to frame processor") ;;
               items <- lift (py_iter (JList ps)) ;;
               for_each items
                 (fun plugin =>
                    _send_config_cmd fp_ctrl_channel plugin ;; ret tt)) w2
            = (Ok tt, w3) /\
            map wire (sends (trace w3)) =
              map wire (sends (trace w2))
              ++ map (fun p => (fp_ctrl_channel, "configure", attached p)) ps /\
            same_config w2 w3) as (w3 & R3 & S3 & C3).
  { destruct ps as [|p ps'].
    - exists w2. simpl. rewrite app_nil_r. auto.
    - replace (negb (Z.of_nat (List.length (p :: ps')) =? 0)) with true
        by (simpl; reflexivity).
      cbn [when]. erewrite bind_ok by apply logger_run.
      match goal with
      | |- context [bind (lift _) _ ?w0] =>
          rewrite (bind_ok (lift (py_iter (JList (p :: ps')))) _ w0 w0 _ eq_refl);
          destruct (plugins_run (p :: ps') w0) as (w3 & R3 & S3 & C3)
      end.
      exists w3. split; [exact R3|]. split.
      + rewrite S3. cbn [trace]. rewrite wire_sends_app. cbn.
        now rewrite app_nil_r.
      + eapply same_config_trans; [|exact C3]. unfold same_config. cbn. auto 10. }
  rewrite (bind_ok _ _ _ _ _ R3).
  erewrite bind_ok by apply logger_run.
  match goal with
  | |- context [bind (gets fp_config) _ ?w0] =>
      rewrite (bind_ok (gets fp_config) _ w0 w0 _ eq_refl)
  end.
  unfold _send_config_cmd. erewrite bind_ok by apply send_cmd_run.
  cbn [fst snd ret self trace inbox fp_config]. split; [reflexivity|].
  destruct C3 as (_ & Cfp3 & _).
  rewrite !wire_sends_app, S3, T, wire_sends_app, S1, settling_wire,
    take_polls_length, Cfp3, Cfp.
  unfold push_wire, push_head. cbn. rewrite !app_nil_r, <- !app_assoc.
  reflexivity.
Qed.

(** X11.  Push-configuration always starts with the receiver: in every
    state, whatever happens later, the first message it sends is
    [configure] to the receiver, carrying the receiver tree (no params when
    the tree is empty). *)
Theorem push_configuration_receiver_first (w : world) :
  exists rest,
    sends (trace (snd (do_config_cmd get_param w))) =
      sends (trace w) ++
      (fr_ctrl_channel,
       {| msg_type := "cmd"; msg_val := "configure";
          id := next_id (_msg_id (self w));
          params := attached (fr_config (self w)) |}) :: rest.
Proof.
  unfold do_config_cmd.
  erewrite bind_ok by apply logger_run.
  match goal with
  | |- context [bind (gets fr_config) _ ?w0] =>
      rewrite (bind_ok (gets fr_config) _ w0 w0 _ eq_refl)
  end.
  unfold _send_config_cmd at 1. erewrite bind_ok by apply send_cmd_run.
  match goal with
  | |- context [snd (?m ?w1)] =>
      assert (preserves lockstep m) as P
  end.
  { unfold settle_once, _send_config_cmd, _send_status_cmd, logger.
    repeat first
      [ apply send_cmd_lockstep
      | apply emit_lockstep; reflexivity
      | apply (preserves_ret lockstep lockstep_refl)
      | apply (preserves_lift lockstep lockstep_refl)
      | apply (preserves_gets lockstep lockstep_refl)
      | apply (preserves_when lockstep lockstep_refl)
      | apply (preserves_for_range lockstep lockstep_refl lockstep_trans)
      | apply (preserves_for_each lockstep lockstep_refl lockstep_trans)
      | apply (preserves_bind lockstep lockstep_trans)
      | intros [?|]
      | intro ]. }
  match goal with
  | |- context [snd (?m ?w1)] =>
      destruct (P w1) as (new & T & _)
  end.
  exists (sends new). rewrite T. cbn [self trace inbox params_truthy].
  rewrite !sends_app. cbn. rewrite app_nil_r, <- app_assoc. reflexivity.
Qed.

(** X12.  A reply to a status poll whose [shared_memory] parameter cannot
    be read stops push-configuration: when the first poll gets such a
    reply, the exception of [get_param] is raised out of [do_config_cmd],
    that one status request is the last message sent, and neither the
    plugin chain nor the processor tree is sent. *)
Theorem push_configuration_unreadable_reply (w : world) (d : dict)
    (r : IpcMessage) (e : exn) :
  fp_config (self w) = JObj d ->
  hd None (skipn (sends_before_polls (fp_config (self w))) (inbox w)) = Some r ->
  get_param r "shared_memory" = Raise e ->
  fst (do_config_cmd get_param w) = Raise e /\
  map wire (sends (trace (snd (do_config_cmd get_param w)))) =
    map wire (sends (trace w))
    ++ push_head (fr_config (self w)) (fp_config (self w))
    ++ [(fp_ctrl_channel, "status", None)].
Proof.
  intros Hfp Hr He. unfold do_config_cmd.
  match goal with
  | |- context [bind (for_range 10 _) ?k] =>
      destruct (before_polls_wire d (bind (for_range 10 (settle_once get_param)) k)
                  w Hfp) as (w1 & -> & S1 & C1 & Ei)
  end.
  rewrite <- Ei in Hr.
  assert (exists w2,
            for_range 10 (settle_once get_param) w1 = (Raise e, w2) /\
            map wire (sends (trace w2)) =
              map wire (sends (trace w1)) ++ [(fp_ctrl_channel, "status", None)])
    as (w2 & R & S2).
  { cbn [for_range]. eexists. split.
    - apply bind_raise. rewrite settle_once_run, Hr, He. reflexivity.
    - cbn [trace]. rewrite wire_sends_app. reflexivity. }
  rewrite (bind_raise _ _ _ _ _ R). cbn [fst snd].
  split; [reflexivity|]. now rewrite S2, S1, <- app_assoc.
Qed.

End PushFacts.

Lemma push_configuration_messages_witness :
  let w := snd (load_config setup_document (init (acked_push 2 2))) in
  forallb (readable params_lookup) (inbox w) = false /\
  fst (do_config_cmd params_lookup w) = Ok tt /\
  map wire (sends (trace (snd (do_config_cmd params_lookup w)))) =
    map wire (sends (trace w))
    ++ push_wire (fr_config (self w)) (fp_config (self w))
         [JObj [("plugin", JObj [("load", JStr "hdf")])]].
Proof.
  cbv zeta. split; [reflexivity|].
  apply (push_configuration_messages params_lookup
           (snd (load_config setup_document (init (acked_push 2 2))))
           [("fr_setup", JObj [("x", JInt 1)])]
           [JObj [("plugin", JObj [("load", JStr "hdf")])]]);
    reflexivity.
Defined.

Lemma push_configuration_unreadable_reply_witness :
  let w := init [None; Some bare_reply] in
  fst (do_config_cmd params_lookup w)
    = Raise (IpcMessageException "Missing parameter shared_memory") /\
  map wire (sends (trace (snd (do_config_cmd params_lookup w)))) =
    map wire (sends (trace w))
    ++ push_head (fr_config (self w)) (fp_config (self w))
    ++ [(fp_ctrl_channel, "status", None)].
Proof.
  apply (push_configuration_unreadable_reply params_lookup
           (init [None; Some bare_reply]) [] bare_reply);
    reflexivity.
Defined.

(** ** Repeating a setter *)

Lemma dict_set_twice (k : string) (v : json) (d : dict) :
  dict_set k v (dict_set k v d) = dict_set k v d.
Proof.
  induction d as [|[k' v'] d IH]; simpl.
  - now rewrite String.eqb_refl.
  - destruct (String.eqb k k') eqn:E; simpl; rewrite E; [reflexivity|].
    now rewrite IH.
Qed.

Lemma write_at_again (p : list string) (k : string) (v root root' : json) :
  write_at p k v root = Ok root' -> write_at p k v root' = Ok root'.
Proof.
  revert root root'. induction p as [|a p IH]; intros root root' H.
  - rewrite write_at_nil in *. destruct root; try discriminate.
    injection H as <-. simpl. now rewrite dict_set_twice.
  - rewrite write_at_cons in *.
    destruct root; try discriminate. simpl in H.
    destruct (dict_get a d) as [child|]; [|discriminate].
    destruct (write_at p k v child) as [child'|] eqn:E; [|discriminate].
    injection H as <-. simpl. rewrite dict_get_set_eq, (IH _ _ E).
    now rewrite dict_set_twice.
Qed.

Lemma write_path_returned_leaf (t : tree) (k : string) (v : json)
    (todo done : list string) (w : world) :
  fst (write_path t done todo k v w) = Ok tt ->
  lookup (config_of t (self (snd (write_path t done todo k v w))))
         (done ++ todo ++ [k]) = Some v.
Proof.
  revert done w. induction todo as [|s todo IH]; intros done w.
  - run_assign t done k v w w1; [|discriminate].
    intros _. rewrite C. eapply write_at_leaf; eauto.
  - run_ensure t done s w w1; [|discriminate].
    intros H. rewrite <- (app_snoc_cons done s (todo ++ [k])). now apply IH.
Qed.

Lemma write_path_again (t : tree) (k : string) (v : json)
    (todo done : list string) (w w' : world) :
  write_path t done todo k v w = (Ok tt, w') ->
  write_path t done todo k v w' = (Ok tt, w').
Proof.
  revert done w. induction todo as [|s todo IH]; intros done w H.
  - cbn [write_path] in *.
    pose proof (assign_run t done k v w) as R.
    destruct (write_at done k v (config_of t (self w))) as [root'|] eqn:E;
      [|rewrite R in H; discriminate].
    destruct R as (w1 & R & _ & C). rewrite R in H. injection H as ->.
    unfold assign, bind, gets, lift, modify.
    rewrite C, (write_at_again _ _ _ _ _ E), <- C, set_config_same.
    now destruct w'.
  - pose proof (write_path_returned_leaf t k v (s :: todo) done w) as L.
    rewrite H in L. specialize (L eq_refl). cbn [snd] in L.
    cbn [write_path] in *. rewrite bind_run in H.
    destruct (fst (_ensure_config_section t done s w)) as [[]|] eqn:E1;
      [|discriminate].
    apply IH in H. rewrite bind_run.
    assert (_ensure_config_section t done s w' = (Ok tt, w')) as E2.
    { rewrite lookup_app in L.
      destruct (lookup (config_of t (self w')) done) as [node|] eqn:Hn;
        [|discriminate].
      cbn [app] in L. rewrite lookup_cons in L.
      destruct node as [| | | | | |d]; try discriminate.
      destruct (dict_get s d) as [x|] eqn:Hd; [|discriminate].
      apply getpath_lookup in Hn. eapply ensure_present; eauto. }
    rewrite E2. exact H.
Qed.

(** X13.  Repeating a call of [set_num_frames], [set_file_path] or
    [set_file_name] that returned, with the same value, changes nothing at
    all: it returns again and leaves the trees, the session values and the
    log exactly as the first call left them. *)
Theorem session_setters_idempotent (s : setter) (w w' : world) :
  is_session_setter s = true ->
  call s w = (Ok tt, w') ->
  call s w' = (Ok tt, w').
Proof.
  intros Hs H.
  assert (forall (g : client -> client) todo k v,
            (forall c, g (g c) = g c) ->
            (forall c x, g (set_fp_config x c) = set_fp_config x (g c)) ->
            write_path processor [] todo k v (snd (modify g w)) = (Ok tt, w') ->
            write_path processor [] todo k v (snd (modify g w')) = (Ok tt, w'))
    as A.
  { intros g todo k v Gi Gc R.
    pose proof (write_path_touches processor k v todo [] (snd (modify g w))) as T.
    rewrite R in T. destruct T as (S & _). simpl in S.
    assert (snd (modify g w') = w') as ->.
    { unfold modify. cbn [snd].
      assert (g (self w') = self w') as -> by (rewrite S, Gc, Gi; reflexivity).
      now destruct w'. }
    eapply write_path_again; eauto. }
  destruct s as [n|p|f|b]; [| | |discriminate]; simpl call in *.
  - rewrite set_num_frames_eq in *. apply A; auto; now intros [].
  - rewrite set_file_path_eq in *. apply A; auto; now intros [].
  - rewrite set_file_name_eq in *. apply A; auto; now intros [].
Qed.

Lemma session_setters_idempotent_witness :
  call (FilePath "/data") (snd (call (FilePath "/data") (init [])))
  = (Ok tt, snd (call (FilePath "/data") (init []))).
Proof.
  apply (session_setters_idempotent (FilePath "/data") (init [])); reflexivity.
Defined.

(** ** Whole runs *)

Section WholeRuns.

Variable identity : channel -> string.
Variable get_param : IpcMessage -> string -> result json.
Variable msg_str : IpcMessage -> string.

Lemma exec_keeps_projection (c : command) (w : world) :
  is_load_config c = false ->
  keeps_projection w (snd (exec get_param msg_str c w)).
Proof.
  intros Hc P. destruct c; try discriminate; simpl exec.
  - now apply call_projection.
  - exact (same_config_projection _ _ (do_config_cmd_same_config get_param w) P).
  - exact (set_file_writing_projection enable w P).
  - exact (same_config_projection _ _ (do_status_cmd_same_config msg_str w) P).
  - exact (same_config_projection _ _ (do_cmd_same_config msg_str _ _ w) P).
  - exact (same_config_projection _ _ (do_cmd_same_config msg_str _ _ w) P).
  - exact (same_config_projection _ _ (do_cmd_same_config msg_str _ _ w) P).
  - exact (same_config_projection _ _ (do_shutdown_cmd_same_config msg_str w) P).
Qed.

Lemma exec_all_keeps_projection (cs : list command) (w : world) :
  forallb (fun c => negb (is_load_config c)) cs = true ->
  keeps_projection w (snd (exec_all get_param msg_str cs w)).
Proof.
  revert w. unfold exec_all.
  induction cs as [|c cs IH]; intros w H.
  - apply keeps_projection_refl.
  - simpl in H. apply andb_true_iff in H. destruct H as [Hc H].
    cbn [for_each].
    apply (preserves_bind_at keeps_projection keeps_projection_trans).
    + apply exec_keeps_projection. now destruct (is_load_config c).
    + intros _ w1. now apply IH.
Qed.

Lemma plan_without_load (a : args.t) :
  args.config_file a = None ->
  forallb (fun c => negb (is_load_config c)) (plan a) = true.
Proof.
  intros H. unfold plan. rewrite H. cbn [option_map opt_list app].
  rewrite !forallb_app.
  destruct (given_int (args.frames a)), (given_int (args.bitdepth a)),
    (given_str (args.file_path a)), (given_str (args.file_name a));
    cbn [option_map opt_list forallb is_load_config negb andb];
    destruct (args.config a), (args.start a), (args.stop a), (args.status a),
      (args.getconfig a), (args.version a), (args.reset_stats a),
      (args.shutdown a); reflexivity.
Qed.

(** X14.  A run that is given no defaults document keeps the processor
    tree a projection of the session values, whatever else the command line
    asks for and even when the run stops at an operation that raises: where
    hdf.frames, hdf.file.path and hdf.file.name are present at the end they
    hold the session's frame count, file path and file name. *)
Theorem run_without_defaults_keeps_projection (a : args.t) (w : world) :
  args.config_file a = None ->
  projection (self w) ->
  projection (self (snd (run identity get_param msg_str a w))).
Proof.
  intros Ha. rewrite run_unfold. revert w.
  apply (preserves_bind keeps_projection keeps_projection_trans).
  - apply (preserves_weaken keeps_projection same_config).
    + intros w1 w2 H. exact (same_config_projection w1 w2 H).
    + unfold startup. same_cfg.
  - intros _ w. apply exec_all_keeps_projection; auto using plan_without_load.
Qed.

(** X15.  A run whose defaults document [json.load] fails to read with an
    exception other than a [JSONDecodeError] stops at [load_config] with
    that exception: after the three startup lines and the opening DEBUG
    line of [load_config] nothing more is logged, no override is applied,
    no message is sent, no poll outcome is taken, and the client is as it
    was. *)
Theorem run_stops_at_unreadable_defaults (a : args.t) (name : string)
    (e : exn) (w : world) :
  args.config_file a = Some (Unreadable name e) ->
  let r := run identity get_param msg_str a w in
  fst r = Raise e /\
  self (snd r) = self w /\
  inbox (snd r) = inbox w /\
  sends (trace (snd r)) = sends (trace w) /\
  trace (snd r) =
    trace w ++
    [Log INFO "Odin data client starting up";
     Log DEBUG
       ("Frame receiver control IPC channel has identity "
        ++ identity fr_ctrl_channel);
     Log DEBUG
       ("Frame processor control IPC channel has identity "
        ++ identity fp_ctrl_channel);
     Log DEBUG ("Parsing default configuration from file " ++ name)].
Proof.
  intros Hc. cbv zeta.
  assert (run identity get_param msg_str a w =
          (Raise e,
           {| self := self w;
              trace :=
                trace w ++
                [Log INFO "Odin data client starting up";
                 Log DEBUG
                   ("Frame receiver control IPC channel has identity "
                    ++ identity fr_ctrl_channel);
                 Log DEBUG
                   ("Frame processor control IPC channel has identity "
                    ++ identity fp_ctrl_channel);
                 Log DEBUG
                   ("Parsing default configuration from file " ++ name)];
              inbox := inbox w |})) as R.
  { unfold run. rewrite Hc.
    erewrite bind_ok by apply logger_run.
    erewrite bind_ok by apply logger_run.
    erewrite bind_ok by apply logger_run.
    match goal with
    | |- context [bind (load_config ?f) ?k ?w0] =>
        rewrite (bind_raise (load_config f) k w0
                   {| self := self w0;
                      trace :=
                        trace w0 ++
                        [Log DEBUG
                           ("Parsing default configuration from file "
                            ++ name)];
                      inbox := inbox w0 |} e)
          by reflexivity
    end.
    cbn [self trace inbox]. now rewrite <- !app_assoc. }
  rewrite R. cbn [fst snd self trace inbox].
  rewrite sends_app. cbn. rewrite app_nil_r. auto 10.
Qed.

End WholeRuns.

Lemma run_without_defaults_keeps_projection_witness :
  projection
    (self (snd (run (fun _ => "id") params_lookup msg_val
                  {| args.fr_ctrl_endpoint := "tcp://127.0.0.1:5000";
                     args.fp_ctrl_endpoint := "tcp://127.0.0.1:5004";
                     args.timeout_ms := 1000;
                     args.config_file := None;
                     args.config := true;
                     args.frames := Some 3;
                     args.bitdepth := None;
                     args.start := true;
                     args.stop := false;
                     args.file_path := Some "/data";
                     args.file_name := None;
                     args.status := false;
                     args.getconfig := false;
                     args.version := false;
                     args.reset_stats := false;
                     args.shutdown := false |}
                  (init [])))).
Proof.
  apply run_without_defaults_keeps_projection; [reflexivity|].
  exact projection_init.
Defined.

Lemma run_stops_at_unreadable_defaults_witness :
  let e := RecursionError "maximum recursion depth exceeded" in
  let a :=
    {| args.fr_ctrl_endpoint := "tcp://127.0.0.1:5000";
       args.fp_ctrl_endpoint := "tcp://127.0.0.1:5004";
       args.timeout_ms := 1000;
       args.config_file := Some (Unreadable "nested.json" e);
       args.config := true;
       args.frames := Some 3;
       args.bitdepth := Some 12;
       args.start := true;
       args.stop := false;
       args.file_path := None;
       args.file_name := None;
       args.status := true;
       args.getconfig := false;
       args.version := false;
       args.reset_stats := false;
       args.shutdown := true |} in
  let r := run (fun _ => "id") params_lookup msg_val a (init [None]) in
  args.parsed a = true /\
  fst r = Raise e /\
  self (snd r) = init_client /\
  inbox (snd r) = [None] /\
  sends (trace (snd r)) = [].
Proof.
  cbv zeta. split; [reflexivity|].
  destruct (run_stops_at_unreadable_defaults (fun _ => "id") params_lookup
              msg_val
              {| args.fr_ctrl_endpoint := "tcp://127.0.0.1:5000";
                 args.fp_ctrl_endpoint := "tcp://127.0.0.1:5004";
                 args.timeout_ms := 1000;
                 args.config_file :=
                   Some (Unreadable "nested.json"
                           (RecursionError "maximum recursion depth exceeded"));
                 args.config := true;
                 args.frames := Some 3;
                 args.bitdepth := Some 12;
                 args.start := true;
                 args.stop := false;
                 args.file_path := None;
                 args.file_name := None;
                 args.status := true;
                 args.getconfig := false;
                 args.version := false;
                 args.reset_stats := false;
                 args.shutdown := true |}
              "nested.json"
              (RecursionError "maximum recursion depth exceeded")
              (init [None]) eq_refl) as (A & B & C & D & _).
  auto.
Defined.

(** ** File writing brings the tree back in line *)

Lemma session_kept_refl (w : world) : session_kept w w.
Proof. unfold session_kept. auto. Qed.

Lemma session_kept_trans (w1 w2 w3 : world) :
  session_kept w1 w2 -> session_kept w2 w3 -> session_kept w1 w3.
Proof. unfold session_kept. intuition congruence. Qed.

Lemma touches_session_kept (t : tree) (w w' : world) :
  touches t w w' -> session_kept w w'.
Proof.
  intros T. destruct (touches_session _ _ _ T) as (A & B & C & _).
  now split.
Qed.

Lemma same_config_session_kept (w w' : world) :
  same_config w w' -> session_kept w w'.
Proof. intros (_ & _ & _ & A & B & C). now split. Qed.

Lemma set_file_writing_session_kept (enable : bool) :
  preserves session_kept (set_file_writing enable).
Proof.
  pose proof session_kept_refl as Rr.
  pose proof session_kept_trans as Rt.
  assert (forall t done todo k v,
            preserves session_kept (write_path t done todo k v)) as W.
  { intros t done todo k v w.
    eapply touches_session_kept, write_path_touches. }
  unfold set_file_writing.
  apply preserves_gets_bind. intros w.
  apply (preserves_bind_at _ Rt).
  { rewrite set_file_name_eq.
    apply Rt with (w2 := snd (modify (set_file_name_attr (file_name (self w))) w)).
    - split; [|split]; reflexivity.
    - apply W. }
  intros _. apply preserves_gets_bind. intros w1.
  apply (preserves_bind_at _ Rt).
  { rewrite set_file_path_eq.
    apply Rt with (w2 := snd (modify (set_file_path_attr (file_path (self w1))) w1)).
    - split; [|split]; reflexivity.
    - apply W. }
  intros _. apply preserves_gets_bind. intros w2.
  apply (preserves_bind_at _ Rt).
  { rewrite set_num_frames_eq.
    apply Rt with (w2 := snd (modify (set_frames (frames (self w2))) w2)).
    - split; [|split]; reflexivity.
    - apply W. }
  intros _. apply (preserves_bind _ Rt); [apply (preserves_gets _ Rr)|].
  intros n. apply (preserves_bind _ Rt);
    [apply (W processor ["hdf"] [] "frames")|].
  intros _. apply (preserves_bind _ Rt);
    [apply (W processor ["hdf"] [] "write")|].
  intros _.
  apply (preserves_weaken session_kept same_config).
  { intros wa wb H. exact (same_config_session_kept wa wb H). }
  unfold _send_config_cmd. same_cfg.
Qed.

(** X16.  Starting or stopping file writing brings the processor tree back
    in line with the session values, also after defaults that disagreed
    with them: on a processor tree that is a nested mapping along hdf.file,
    [set_file_writing(enable)] returns with the session values unchanged,
    with hdf.frames, hdf.file.path and hdf.file.name present in the tree and
    equal to them and hdf.write equal to [enable], having sent the processor
    one [configure] whose params are exactly the key [hdf] with that hdf
    subtree. *)
Theorem file_writing_restores_projection (enable : bool) (w : world) :
  sections_ok ["hdf"; "file"] (fp_config (self w)) = true ->
  let w' := snd (set_file_writing enable w) in
  fst (set_file_writing enable w) = Ok tt /\
  session_kept w w' /\
  (exists hdf,
     getitem (fp_config (self w')) "hdf" = Ok hdf /\
     sends (trace w') =
       sends (trace w) ++
       [(fp_ctrl_channel,
         {| msg_type := "cmd"; msg_val := "configure";
            id := next_id (_msg_id (self w));
            params := Some (JObj [("hdf", hdf)]) |})]) /\
  lookup (fp_config (self w')) ["hdf"; "frames"] = Some (JInt (frames (self w'))) /\
  lookup (fp_config (self w')) ["hdf"; "file"; "path"]
    = Some (JStr (file_path (self w'))) /\
  lookup (fp_config (self w')) ["hdf"; "file"; "name"]
    = Some (JStr (file_name (self w'))) /\
  lookup (fp_config (self w')) ["hdf"; "write"] = Some (JBool enable) /\
  projection (self w').
Proof.
  intros J. cbv zeta.
  pose proof (set_file_writing_session_kept enable w) as K.
  destruct (set_file_writing_run enable w J)
    as (w' & hdf & R & S & G & Lf & Lp & Ln & Lw).
  rewrite R in *. cbn [fst snd] in *.
  destruct K as (Kf & Kp & Kn).
  assert (forall q, lookup (fp_config (self w')) ("hdf" :: q) = lookup hdf q) as Q.
  { intros q. rewrite lookup_cons.
    destruct (fp_config (self w')) as [| | | | | |d]; try discriminate.
    simpl in G. destruct (dict_get "hdf" d); [|discriminate].
    now injection G as ->. }
  assert (lookup (fp_config (self w')) ["hdf"; "frames"]
            = Some (JInt (frames (self w')))) as A
    by now rewrite Q, Lf, Kf.
  assert (lookup (fp_config (self w')) ["hdf"; "file"; "path"]
            = Some (JStr (file_path (self w')))) as B
    by now rewrite Q, Lp, Kp.
  assert (lookup (fp_config (self w')) ["hdf"; "file"; "name"]
            = Some (JStr (file_name (self w')))) as C
    by now rewrite Q, Ln, Kn.
  split; [reflexivity|]. split; [now split|].
  split; [exists hdf; split; [exact G|exact S]|].
  split; [exact A|]. split; [exact B|]. split; [exact C|].
  split; [now rewrite Q|].
  unfold projection. rewrite A, B, C.
  repeat split; intros v H; now injection H as <-.
Qed.

Lemma file_writing_restores_projection_witness :
  let w := snd (load_config frames_document (init [])) in
  let w' := snd (set_file_writing false w) in
  fst (set_file_writing false w) = Ok tt /\
  session_kept w w' /\
  (exists hdf,
     getitem (fp_config (self w')) "hdf" = Ok hdf /\
     sends (trace w') =
       sends (trace w) ++
       [(fp_ctrl_channel,
         {| msg_type := "cmd"; msg_val := "configure";
            id := next_id (_msg_id (self w));
            params := Some (JObj [("hdf", hdf)]) |})]) /\
  lookup (fp_config (self w')) ["hdf"; "frames"] = Some (JInt (frames (self w'))) /\
  lookup (fp_config (self w')) ["hdf"; "file"; "path"]
    = Some (JStr (file_path (self w'))) /\
  lookup (fp_config (self w')) ["hdf"; "file"; "name"]
    = Some (JStr (file_name (self w'))) /\
  lookup (fp_config (self w')) ["hdf"; "write"] = Some (JBool false) /\
  projection (self w').
Proof.
  apply (file_writing_restores_projection false
           (snd (load_config frames_document (init [])))).
  reflexivity.
Defined.
